(** * The Rust runtime adapter of sst ([pkg/runtime/rust/rust.go])

    A shallow embedding of the adapter: [Match], [Build], [Run],
    [ShouldRebuild], [FindClosestCargoConfig], [copyFile] and [Worker.Logs],
    together with the parts of Go's [strings], [path/filepath] and [os]
    packages (Unix flavour) that the adapter calls.

    State is passed explicitly: the adapter's directory table ([Runtime]) and
    the operating system ([OS]: files, working directory, environment, and
    the list of commands and syncs asked of it). A Go result pair
    [(value, err)] is a pair whose second component is [None] for [nil].
    Calls are atomic here, so the mutex [Build] holds has nothing to guard;
    [slog] output is left out. [Logs] is the one place with goroutines and
    gets a step relation of its own. *)

From Stdlib Require Import Ascii.
From Stdlib Require String.
From stdpp Require Import gmap strings list fin_maps.

Local Open Scope stdpp_scope.

(** Go's [error] values are carried as their message. *)
Definition error : Type := string.

(** ** Package [strings] *)

Module strings.

Definition HasPrefix (s prefix : string) : bool := String.prefix prefix s.

(** [len(s) >= len(suffix) && s[len(s)-len(suffix):] == suffix] *)
Definition HasSuffix (s suffix : string) : bool :=
  (String.length suffix <=? String.length s) &&
  String.eqb
    (String.substring (String.length s - String.length suffix)
                      (String.length suffix) s)
    suffix.

Definition TrimSuffix (s suffix : string) : string :=
  if HasSuffix s suffix
  then String.substring 0 (String.length s - String.length suffix) s
  else s.

Definition Join (elems : list string) (sep : string) : string :=
  String.concat sep elems.

(** [strings.Count(s, "/")], the only use the adapter's dependencies make
    of [Count]. *)
Fixpoint CountSep (s : string) : nat :=
  match s with
  | EmptyString => 0
  | String c r => (if Ascii.eqb c "/"%char then 1 else 0) + CountSep r
  end.

End strings.

(** ** Package [path/filepath] on Unix: separator ['/'], no volume names *)

Module filepath.

Definition isSep (c : ascii) : bool := Ascii.eqb c "/"%char.

(** The elements of a path: the substrings between separators. *)
Fixpoint split (s : string) : list string :=
  match s with
  | EmptyString => [EmptyString]
  | String c r =>
      if isSep c then EmptyString :: split r
      else match split r with
           | x :: xs => String c x :: xs
           | [] => [String c EmptyString]
           end
  end.

(** One element of [Clean]'s scan. [out] is the output buffer as a stack of
    elements, last written first. An empty or [.] element is skipped; a
    [..] element removes the last written element when there is one that
    is not itself [..], is kept on a path that is not rooted, and is
    dropped at the root. *)
Definition cleanStep (rooted : bool) (out : list string) (e : string)
  : list string :=
  if String.eqb e "" then out
  else if String.eqb e "." then out
  else if String.eqb e ".." then
    match out with
    | top :: rest =>
        if String.eqb top ".." then (if rooted then out else e :: out)
        else rest
    | [] => if rooted then [] else [e]
    end
  else e :: out.

Definition Clean (path : string) : string :=
  if String.eqb path "" then "."
  else
    let rooted := strings.HasPrefix path "/" in
    let out := rev (fold_left (cleanStep rooted) (split path) []) in
    if rooted then "/" +:+ String.concat "/" out
    else match out with
         | [] => "."
         | _ => String.concat "/" out
         end.

(** [Join] ignores empty elements in front, joins the rest with the
    separator and cleans the result; all empty gives the empty string. *)
Fixpoint Join (elem : list string) : string :=
  match elem with
  | [] => ""
  | e :: rest =>
      if String.eqb e "" then Join rest
      else Clean (strings.Join elem "/")
  end.

(** [path[:i+1]] for [i] the index of the last separator ([""] if none). *)
Fixpoint dirPrefix (s : string) : string :=
  match s with
  | EmptyString => ""
  | String c r =>
      match dirPrefix r with
      | EmptyString => if isSep c then "/" else ""
      | p => String c p
      end
  end.

Definition Dir (path : string) : string := Clean (dirPrefix path).

Definition Base (path : string) : string :=
  if String.eqb path "" then "."
  else
    match rev (filter (fun e => e ≠ "") (split path)) with
    | e :: _ => e
    | [] => "/"
    end.

(** The suffix of an element from its last dot on, or [""] *)
Fixpoint extOf (s : string) : string :=
  match s with
  | EmptyString => ""
  | String c r =>
      match extOf r with
      | EmptyString => if Ascii.eqb c "."%char then s else ""
      | e => e
      end
  end.

(** [Ext] scans back from the end of the whole path and stops at a
    separator: it looks at what follows the last separator only. *)
Definition Ext (path : string) : string := extOf (List.last (split path) "").

Definition IsAbs (path : string) : bool := strings.HasPrefix path "/".

(** First element of [s] and what follows its separator. *)
Fixpoint cut (s : string) : string * string :=
  match s with
  | EmptyString => ("", "")
  | String c r =>
      if isSep c then ("", r)
      else let '(e, r') := cut r in (String c e, r')
  end.

(** The loop of [Rel] that skips the common leading elements. It returns
    [base[b0:bi]], [base[b0:]] and [targ[t0:]] as they stand when the loop
    is left. Each iteration shortens [base[b0:]], so fuel above the length
    of [base] is never used up ([relLoop_fuel]). *)
Fixpoint relLoop (fuel : nat) (base targ : string)
  : string * string * string :=
  match fuel with
  | 0 => ("", base, targ)
  | S n =>
      if String.eqb base "" || String.eqb targ "" then ("", base, targ)
      else
        let '(be, b') := cut base in
        let '(te, t') := cut targ in
        if String.eqb be te then relLoop n b' t' else (be, base, targ)
  end.

Fixpoint dotdots (seps : nat) : string :=
  match seps with
  | 0 => ""
  | S n => "/.." +:+ dotdots n
  end.

Definition Rel (basepath targpath : string) : string * option error :=
  let cant :=
    "Rel: can't make " +:+ targpath +:+ " relative to " +:+ basepath in
  let base := Clean basepath in
  let targ := Clean targpath in
  if String.eqb targ base then (".", None)
  else
    let base := if String.eqb base "." then "" else base in
    if negb (eqb (strings.HasPrefix base "/") (strings.HasPrefix targ "/"))
    then ("", Some cant)
    else
      let '(be, brest, trest) := relLoop (S (String.length base)) base targ in
      if String.eqb be ".." then ("", Some cant)
      else if negb (String.eqb brest "") then
        (".." +:+ dotdots (strings.CountSep brest) +:+
           (if String.eqb trest "" then "" else "/" +:+ trest), None)
      else (trest, None).

End filepath.

(** ** The operating system as the adapter sees it

    Files are named by the literal path string handed to the system call:
    no symbolic links, no resolution against the working directory. The root
    and the current directory always exist. Permissions and resource
    exhaustion are left out. *)

Inductive node : Type :=
  | File (content : string)
  | Directory.

(** [exec.Cmd]. [Stdout] and [Stderr] hold the pipe a stream was connected
    to by [StdoutPipe] or [StderrPipe], if any. *)
Record Cmd : Type := mkCmd {
  Path : string;
  Args : list string;
  Env : list string;
  Dir : string;
  Stdout : option nat;
  Stderr : option nat
}.

(** What the adapter asks of the system, in order: a command run to
    completion with its two output streams captured as one, a child started
    and left running, and a file synced to stable storage. *)
Inductive event : Type :=
  | EvCombinedOutput (c : Cmd)
  | EvStart (c : Cmd)
  | EvSync (name : string).

Record OS : Type := mkOS {
  files : gmap string node;
  cwd : option string;
  environ : list string;
  nextPipe : nat;
  events : list event
}.

Module os.

(** [os.Stat]: [err == nil] is [is_Some]. *)
Definition Stat (fs : gmap string node) (name : string) : option node :=
  if String.eqb name "/" || String.eqb name "." then Some Directory
  else fs !! name.

(** [_, err := os.Stat(name); err == nil] *)
Definition statOk (fs : gmap string node) (name : string) : bool :=
  match Stat fs name with
  | Some _ => true
  | None => false
  end.

(** [path[:i]] of [MkdirAll]: trailing separators are dropped, then the
    last element; the separator in front of it is dropped too. *)
Fixpoint dropTrailingSeps (rs : list ascii) : list ascii :=
  match rs with
  | c :: rest => if filepath.isSep c then dropTrailingSeps rest else rs
  | [] => []
  end.

Fixpoint dropElem (rs : list ascii) : list ascii :=
  match rs with
  | c :: rest => if filepath.isSep c then rest else dropElem rest
  | [] => []
  end.

Definition mkdirParent (path : string) : string :=
  String.string_of_list_ascii
    (rev (dropElem (dropTrailingSeps (rev (String.list_ascii_of_string path))))).

(** [os.MkdirAll]: nothing to do for a directory, an error for a file in
    the way; otherwise the parent is made first and then, by [os.Mkdir], the
    directory itself. The parent is shorter than the path, so fuel equal to
    the path's length is never used up ([mkdirAll_fuel]). *)
Fixpoint mkdirAll (fuel : nat) (path : string) (fs : gmap string node)
  : option error * gmap string node :=
  match Stat fs path with
  | Some Directory => (None, fs)
  | Some (File _) => (Some ("mkdir " +:+ path +:+ ": not a directory"), fs)
  | None =>
      let parent := mkdirParent path in
      let '(err, fs1) :=
        match fuel with
        | S n => if 0 <? String.length parent then mkdirAll n parent fs
                 else (None, fs)
        | 0 => (None, fs)
        end in
      match err with
      | Some e => (Some e, fs1)
      | None => (None, <[path := Directory]> fs1)
      end
  end.

Definition MkdirAll (path : string) (fs : gmap string node)
  : option error * gmap string node :=
  mkdirAll (String.length path) path fs.

(** [os.Open] for reading: the name must exist. *)
Definition Open (name : string) (fs : gmap string node) : option error :=
  match Stat fs name with
  | Some _ => None
  | None => Some ("open " +:+ name +:+ ": no such file or directory")
  end.

(** [os.Create]: the file is created or truncated; its directory must
    exist and the name must not be a directory. Permission bits are not
    part of a [node]: the mode [os.Create] gives a new file (0666 less the
    umask) leaves no trace, and nothing below says whether a file can be
    executed. *)
Definition Create (name : string) (fs : gmap string node)
  : option error * gmap string node :=
  match Stat fs name with
  | Some Directory => (Some ("open " +:+ name +:+ ": is a directory"), fs)
  | _ =>
      match Stat fs (filepath.Dir name) with
      | Some Directory => (None, <[name := File ""]> fs)
      | _ => (Some ("open " +:+ name +:+ ": no such file or directory"), fs)
      end
  end.

(** [filepath.Abs] *)
Definition Abs (w : OS) (path : string) : string * option error :=
  if filepath.IsAbs path then (filepath.Clean path, None)
  else match cwd w with
       | Some wd => (filepath.Join [wd; path], None)
       | None => ("", Some "getwd: no such file or directory")
       end.

End os.

(** ** The adapter's data *)

Record Runtime : Type := mkRuntime {
  directories : gmap string string
}.

Definition New : Runtime := {| directories := ∅ |}.

Record CargoConfigBuild : Type := { TargetDir : option string }.
Record CargoConfig : Type := { Build_ : CargoConfigBuild }.
Record CargoTomlBin : Type := { Name : string; RequiredFeatures : list string }.
Record CargoToml : Type := { Bin : list CargoTomlBin }.
Record Properties : Type := { Architecture : string }.

(** The zero values a [var] declaration leaves behind. *)
Definition zeroCargoConfig : CargoConfig := {| Build_ := {| TargetDir := None |} |}.
Definition zeroCargoToml : CargoToml := {| Bin := [] |}.
Definition zeroProperties : Properties := {| Architecture := "" |}.

(** Modelled from the spec: [runtime.BuildInput] (package [pkg/runtime] is
    not among the sources). Of a BuildRequest the adapter reads the function
    identifier, the handler path, the properties blob, the development-mode
    flag and the target output directory, which is what [input.Out()]
    returns. *)
Record BuildInput : Type := {
  FunctionID : string;
  Handler : string;
  Properties_ : string;
  Dev : bool;
  Out_ : string
}.

(** [runtime.BuildOutput]; a slice field is [None] for Go's nil slice. *)
Record BuildOutput : Type := {
  Out : string;
  Handler_ : string;
  Errors : option (list string);
  Sourcemaps : option (list string)
}.

(** Modelled from the spec: [runtime.RunInput], what [Run] reads of it. *)
Record RunInput : Type := {
  Server : string;
  RunEnv : list string;
  RunBuild : BuildOutput
}.

Record Worker : Type := {
  stdout : option nat;
  stderr : option nat;
  cmd : Cmd
}.

(** What the adapter calls and this file does not define: the manifest
    lookup of [internal/fs], the JSON and TOML decoders and the build tool.
    A decoder is handed the destination and gives it back as the call
    leaves it, with the error it returns. *)
Record Externals : Type := {
  fs_FindUp : gmap string node -> string -> string -> string * option error;
  json_Unmarshal : string -> Properties -> Properties * option error;
  toml_DecodeCargoToml :
    gmap string node -> string -> CargoToml -> CargoToml * option error;
  toml_DecodeCargoConfig :
    gmap string node -> string -> CargoConfig -> CargoConfig * option error;
  cmd_CombinedOutput :
    Cmd -> gmap string node -> gmap string node * string * option error
}.

(** Modelled from the spec: [process.Command] (package [pkg/process] is not
    among the sources) prepares the command line [name args...]. *)
Definition process_Command (name : string) (args : list string) : Cmd :=
  {| Path := name; Args := name :: args; Env := []; Dir := "";
     Stdout := None; Stderr := None |}.

Definition Match (runtime : string) : bool := String.eqb runtime "rust".

(** ** The adapter *)

Definition setFiles (fs : gmap string node) (w : OS) : OS :=
  {| files := fs; cwd := cwd w; environ := environ w;
     nextPipe := nextPipe w; events := events w |}.

Definition emit (e : event) (w : OS) : OS :=
  {| files := files w; cwd := cwd w; environ := environ w;
     nextPipe := nextPipe w; events := events w ++ [e] |}.

(** The two candidates inside one [.cargo] directory, [config.toml] first. *)
Definition cargoConfigIn (fs : gmap string node) (dir : string) : option string :=
  let cargoDir := filepath.Join [dir; ".cargo"] in
  if os.statOk fs cargoDir then
    if os.statOk fs (filepath.Join [cargoDir; "config.toml"])
    then Some (filepath.Join [cargoDir; "config.toml"])
    else if os.statOk fs (filepath.Join [cargoDir; "config"])
    then Some (filepath.Join [cargoDir; "config"])
    else None
  else None.

(** The [for] loop of [FindClosestCargoConfig]; one unit of fuel per
    iteration. *)
Fixpoint findClosestLoop (fuel : nat) (fs : gmap string node) (dir : string)
  : option string :=
  match fuel with
  | 0 => None
  | S n =>
      match cargoConfigIn fs dir with
      | Some cargoConfig => Some cargoConfig
      | None =>
          let parentDir := filepath.Dir dir in
          if String.eqb parentDir dir then None
          else findClosestLoop n fs parentDir
      end
  end.

(** A step up lands on the root, on ["."] or on a shorter path, so
    [length + 2] iterations reach the top, whatever the starting path
    ([FindClosestCargoConfig_first_with_file] has the proof). *)
Definition FindClosestCargoConfig (fs : gmap string node) (startingPath : string)
  : option string :=
  findClosestLoop (String.length startingPath + 2) fs startingPath.

Definition copyFile (src dst : string) (w : OS) : option error * OS :=
  match os.Open src (files w) with
  | Some err => (Some err, w)
  | None =>
      let destDir := filepath.Dir dst in
      match os.MkdirAll destDir (files w) with
      | (Some err, fs1) =>
          (Some ("failed to create destination directories for " +:+ dst
                   +:+ ": " +:+ err), setFiles fs1 w)
      | (None, fs1) =>
          match os.Create dst fs1 with
          | (Some err, fs2) => (Some err, setFiles fs2 w)
          | (None, fs2) =>
              (* io.Copy reads the source as it is now *)
              match os.Stat fs2 src with
              | Some (File content) =>
                  (None, emit (EvSync dst)
                           (setFiles (<[dst := File content]> fs2) w))
              | _ => (Some ("read " +:+ src +:+ ": is a directory"),
                      setFiles fs2 w)
              end
          end
      end
  end.

(** The [range] loop over the manifest's [[bin]] entries: the first entry
    named like the handler decides. *)
Fixpoint requiredFeaturesOf (bins : list CargoTomlBin) (handlerName : string)
  : list string :=
  match bins with
  | [] => []
  | v :: rest =>
      if String.eqb (Name v) handlerName then RequiredFeatures v
      else requiredFeaturesOf rest handlerName
  end.

Definition CombinedOutput (X : Externals) (c : Cmd) (w : OS)
  : string * option error * OS :=
  let '(fs', output, err) := cmd_CombinedOutput X c (files w) in
  (output, err, emit (EvCombinedOutput c) (setFiles fs' w)).

Definition Build (X : Externals) (r : Runtime) (input : BuildInput) (w : OS)
  : option BuildOutput * option error * Runtime * OS :=
  let properties := zeroProperties in
  let properties := (json_Unmarshal X (Properties_ input) properties).1 in
  let handlerName :=
    strings.TrimSuffix (filepath.Base (Handler input))
                       (filepath.Ext (Handler input)) in
  match fs_FindUp X (files w) (Handler input) "Cargo.toml" with
  | (_, Some err) => (None, Some err, r, w)
  | (cargoTomlFile, None) =>
      let root := filepath.Dir cargoTomlFile in
      let out := Out_ input in
      let cargoToml := zeroCargoToml in
      let cargoToml :=
        (toml_DecodeCargoToml X (files w) cargoTomlFile cargoToml).1 in
      let requiredFeatures := requiredFeaturesOf (Bin cargoToml) handlerName in
      let cargoConfigFile := FindClosestCargoConfig (files w) root in
      let cargoConfig := zeroCargoConfig in
      let cargoConfig :=
        match cargoConfigFile with
        | Some f => (toml_DecodeCargoConfig X (files w) f cargoConfig).1
        | None => cargoConfig
        end in
      let args := ["lambda"; "build"; "--bin"; handlerName] in
      let args := if negb (Dev input) then args ++ ["--release"] else args in
      let args :=
        if String.eqb (Architecture properties) "arm_64"
        then args ++ ["--arm64"] else args in
      let args := args ++ ["--no-default-features"] in
      let args :=
        if 0 <? length requiredFeatures
        then args ++ ["--features"; strings.Join requiredFeatures ","]
        else args in
      let cmd := process_Command "cargo" args in
      let cmd := {| Path := Path cmd; Args := Args cmd; Env := environ w;
                    Dir := root; Stdout := Stdout cmd; Stderr := Stderr cmd |} in
      let '(output, err, w1) := CombinedOutput X cmd w in
      match err with
      | Some _ =>
          (Some {| Out := ""; Handler_ := ""; Errors := Some [output];
                   Sourcemaps := None |}, None, r, w1)
      | None =>
          let targetPath :=
            match TargetDir (Build_ cargoConfig) with
            | Some targetDir => filepath.Join [root; targetDir]
            | None => filepath.Join [root; "target"]
            end in
          let src := filepath.Join [targetPath; "lambda"; handlerName; "bootstrap"] in
          let dst := filepath.Join [out; "bootstrap"] in
          let '(_, w2) := copyFile src dst w1 in
          (Some {| Out := out; Handler_ := "bootstrap"; Errors := Some [];
                   Sourcemaps := Some [] |}, None,
           {| directories :=
                <[FunctionID input := (os.Abs w2 root).1]> (directories r) |},
           w2)
      end
  end.

(** [cmd.StdoutPipe] and [cmd.StderrPipe]: a fresh pipe is connected to the
    stream and its read end handed back. *)
Definition StdoutPipe (c : Cmd) (w : OS) : option nat * Cmd * OS :=
  (Some (nextPipe w),
   {| Path := Path c; Args := Args c; Env := Env c; Dir := Dir c;
      Stdout := Some (nextPipe w); Stderr := Stderr c |},
   {| files := files w; cwd := cwd w; environ := environ w;
      nextPipe := S (nextPipe w); events := events w |}).

Definition StderrPipe (c : Cmd) (w : OS) : option nat * Cmd * OS :=
  (Some (nextPipe w),
   {| Path := Path c; Args := Args c; Env := Env c; Dir := Dir c;
      Stdout := Stdout c; Stderr := Some (nextPipe w) |},
   {| files := files w; cwd := cwd w; environ := environ w;
      nextPipe := S (nextPipe w); events := events w |}).

Definition Run (r : Runtime) (input : RunInput) (w : OS)
  : option Worker * option error * OS :=
  let cmd :=
    process_Command
      (filepath.Join [Out (RunBuild input); Handler_ (RunBuild input)]) [] in
  let cmd := {| Path := Path cmd; Args := Args cmd; Env := RunEnv input;
                Dir := Dir cmd; Stdout := Stdout cmd; Stderr := Stderr cmd |} in
  let cmd := {| Path := Path cmd; Args := Args cmd;
                Env := Env cmd ++ ["AWS_LAMBDA_RUNTIME_API=" +:+ Server input];
                Dir := Dir cmd; Stdout := Stdout cmd; Stderr := Stderr cmd |} in
  let cmd := {| Path := Path cmd; Args := Args cmd; Env := Env cmd;
                Dir := Out (RunBuild input);
                Stdout := Stdout cmd; Stderr := Stderr cmd |} in
  let '(stdout, cmd, w) := StdoutPipe cmd w in
  let '(stderr, cmd, w) := StderrPipe cmd w in
  let w := emit (EvStart cmd) w in
  (Some {| stdout := stdout; stderr := stderr; cmd := cmd |}, None, w).

Definition ShouldRebuild (r : Runtime) (functionID file : string) : bool :=
  if negb (strings.HasSuffix file ".rs") then false
  else
    match directories r !! functionID with
    | None => false
    | Some match_ =>
        match filepath.Rel match_ file with
        | (_, Some err) => false
        | (rel, None) => negb (strings.HasPrefix rel "..")
        end
    end.

(** A path that ends in a file name: it is not empty and does not end in a
    separator. *)
Definition namesFile (path : string) : Prop :=
  List.last (filepath.split path) "" <> "".

Fixpoint hasSep (s : string) : bool :=
  match s with
  | EmptyString => false
  | String c r => filepath.isSep c || hasSep r
  end.

(** The first element of a relative path. *)
Definition firstElem (rel : string) : string := (filepath.cut rel).1.

(** ** Walking up the directory tree *)

(** The size of a path with elements [l]: each element and one separator. *)
Definition weight (l : list string) : nat :=
  list_sum (map (fun e => S (String.length e)) l).

(** The same, empty elements left out. *)
Definition weightNE (l : list string) : nat :=
  list_sum (map (fun e => if String.eqb e "" then 0 else S (String.length e)) l).

(** The directories an upward walk visits: [dir], [Dir dir], ... up to the
    first one that is its own parent. *)
Fixpoint walk (fuel : nat) (dir : string) : list string :=
  match fuel with
  | 0 => []
  | S n =>
      dir :: (if String.eqb (filepath.Dir dir) dir then []
              else walk n (filepath.Dir dir))
  end.

Definition ancestors (dir : string) : list string :=
  walk (String.length dir + 2) dir.

(** The first configuration file along a list of directories. *)
Fixpoint firstConfig (fs : gmap string node) (dirs : list string) : option string :=
  match dirs with
  | [] => None
  | d :: rest =>
      match cargoConfigIn fs d with
      | Some f => Some f
      | None => firstConfig fs rest
      end
  end.

(** Modelled from the spec: [fs.FindUp] of [internal/fs], which is not among
    the sources. It walks upward from the handler's directory until the
    named file is found and fails with a not-found error if none exists up
    to the top. *)
Fixpoint findUpLoop (fuel : nat) (fs : gmap string node) (dir fileName : string)
  : string * option error :=
  match fuel with
  | 0 => ("", Some "file not found")
  | S n =>
      let candidate := filepath.Join [dir; fileName] in
      if os.statOk fs candidate then (candidate, None)
      else if String.eqb (filepath.Dir dir) dir then ("", Some "file not found")
      else findUpLoop n fs (filepath.Dir dir) fileName
  end.

Definition FindUp (fs : gmap string node) (initialPath fileName : string)
  : string * option error :=
  let dir := filepath.Dir initialPath in
  findUpLoop (String.length dir + 2) fs dir fileName.

(** ** The specification's wording, for comparison with the code *)

(** The artifact name: the handler's base name without the extension. *)
Definition artifactName (handler : string) : string :=
  strings.TrimSuffix (filepath.Base handler) (filepath.Ext handler).

(** The manifest entry of an artifact and its required features. *)
Definition featuresOf (manifest : CargoToml) (artifact : string) : list string :=
  match List.find (fun v => String.eqb (Name v) artifact) (Bin manifest) with
  | Some v => RequiredFeatures v
  | None => []
  end.

(** The external build command of the specification:
    [cargo lambda build --bin <artifact> [--release] [--arm64]
    --no-default-features [--features <csv>]]. *)
Definition commandLine (artifact : string) (dev : bool) (architecture : string)
    (features : list string) : list string :=
  ["cargo"; "lambda"; "build"; "--bin"; artifact]
  ++ (if dev then [] else ["--release"])
  ++ (if String.eqb architecture "arm_64" then ["--arm64"] else [])
  ++ ["--no-default-features"]
  ++ (match features with
      | [] => []
      | _ :: _ => ["--features"; String.concat "," features]
      end).

(** What [Build] has in hand once the manifest is located: the project
    root, the decoded manifest, properties and override, and from them the
    command, the artifact's place and the copy's destination. *)
Definition rootOf (cargoTomlFile : string) : string := filepath.Dir cargoTomlFile.

Definition manifestOf (X : Externals) (w : OS) (cargoTomlFile : string) : CargoToml :=
  (toml_DecodeCargoToml X (files w) cargoTomlFile zeroCargoToml).1.

Definition propertiesOf (X : Externals) (input : BuildInput) : Properties :=
  (json_Unmarshal X (Properties_ input) zeroProperties).1.

Definition overrideOf (X : Externals) (w : OS) (root : string) : option string :=
  match FindClosestCargoConfig (files w) root with
  | Some f =>
      TargetDir (Build_ (toml_DecodeCargoConfig X (files w) f zeroCargoConfig).1)
  | None => None
  end.

Definition buildCmd (X : Externals) (input : BuildInput) (w : OS)
    (cargoTomlFile : string) : Cmd :=
  {| Path := "cargo";
     Args := commandLine (artifactName (Handler input)) (Dev input)
               (Architecture (propertiesOf X input))
               (featuresOf (manifestOf X w cargoTomlFile)
                           (artifactName (Handler input)));
     Env := environ w;
     Dir := rootOf cargoTomlFile;
     Stdout := None; Stderr := None |}.

Definition artifactPath (root : string) (override : option string)
    (artifact : string) : string :=
  filepath.Join
    [filepath.Join [root; match override with Some d => d | None => "target" end];
     "lambda"; artifact; "bootstrap"].

Definition failedBuild (output : string) : BuildOutput :=
  {| Out := ""; Handler_ := ""; Errors := Some [output]; Sourcemaps := None |}.

Definition successfulBuild (out : string) : BuildOutput :=
  {| Out := out; Handler_ := "bootstrap"; Errors := Some []; Sourcemaps := Some [] |}.

(** The same collaborators with the decoders' errors dropped: what a decoder
    leaves in its destination is kept, the error it returns is not. *)
Definition silenced (X : Externals) : Externals :=
  {| fs_FindUp := fs_FindUp X;
     json_Unmarshal blob dest := ((json_Unmarshal X blob dest).1, None);
     toml_DecodeCargoToml fs f dest :=
       ((toml_DecodeCargoToml X fs f dest).1, None);
     toml_DecodeCargoConfig fs f dest :=
       ((toml_DecodeCargoConfig X fs f dest).1, None);
     cmd_CombinedOutput := cmd_CombinedOutput X |}.

(** [findConfigOverride] as the specification words it: the walk stops at
    the first directory that contains the [.cargo] subdirectory, whatever is
    inside, and the two file names are tried there. *)
Definition spec_findConfigOverride (fs : gmap string node) (projectRoot : string)
  : option string :=
  match List.find (fun d => os.statOk fs (filepath.Join [d; ".cargo"]))
                  (ancestors projectRoot) with
  | Some d => cargoConfigIn fs d
  | None => None
  end.

(** ** [Worker.Logs]: three goroutines around one pipe

    A copier runs [io.Copy(writer, src)]: it reads a non-empty chunk of what
    the child has written to [src], writes it to the pipe, and starts over;
    at end of stream [io.Copy] returns and the deferred [wg.Done()] runs.
    The pipe lets one [Write] through at a time, so a chunk reaches the
    reader in one piece. The third goroutine sits in [wg.Wait()] and closes
    the writer after it. The reader is taken to read until end of stream. *)

Inductive copierPc : Type :=
  | AtRead
  | AtWrite (chunk : list Byte.byte)
  | Returned.

Record copier : Type := mkCopier {
  src : list Byte.byte;
  pc : copierPc
}.

Record logsState : Type := mkLogs {
  outCopier : copier;
  errCopier : copier;
  wg : nat;
  writerClosed : bool;
  merged : list Byte.byte
}.

(** The state [Logs] leaves behind when it returns: [wg.Add(2)] done, both
    copiers about to read, nothing written yet. *)
Definition Logs (childStdout childStderr : list Byte.byte) : logsState :=
  {| outCopier := {| src := childStdout; pc := AtRead |};
     errCopier := {| src := childStderr; pc := AtRead |};
     wg := 2; writerClosed := false; merged := [] |}.

(** One step of a copier; it may append to the pipe and may decrement the
    wait group. *)
Inductive copierStep : copier -> list Byte.byte -> nat -> copier -> Prop :=
  | copy_read chunk rest :
      chunk <> [] ->
      copierStep {| src := chunk ++ rest; pc := AtRead |} [] 0
                 {| src := rest; pc := AtWrite chunk |}
  | copy_write rest chunk :
      copierStep {| src := rest; pc := AtWrite chunk |} chunk 0
                 {| src := rest; pc := AtRead |}
  | copy_eof :
      copierStep {| src := []; pc := AtRead |} [] 1
                 {| src := []; pc := Returned |}.

Inductive logsStep : logsState -> logsState -> Prop :=
  | step_stdout c c' e w d m written done_ :
      copierStep c written done_ c' ->
      logsStep (mkLogs c e w d m) (mkLogs c' e (w - done_) d (m ++ written))
  | step_stderr c e e' w d m written done_ :
      copierStep e written done_ e' ->
      logsStep (mkLogs c e w d m) (mkLogs c e' (w - done_) d (m ++ written))
  | step_close c e m :
      logsStep (mkLogs c e 0 false m) (mkLogs c e 0 true m).

Inductive logsRun : logsState -> logsState -> Prop :=
  | run_refl s : logsRun s s
  | run_step s1 s2 s3 : logsRun s1 s2 -> logsStep s2 s3 -> logsRun s1 s3.

(** [merge a b m]: [m] interleaves [a] and [b], each kept in its order. *)
Inductive merge : list Byte.byte -> list Byte.byte -> list Byte.byte -> Prop :=
  | merge_nil : merge [] [] []
  | merge_left x a b m : merge a b m -> merge (x :: a) b (x :: m)
  | merge_right x a b m : merge a b m -> merge a (x :: b) (x :: m).

(** Work left in a state: it drops with every step. *)
Definition copierWork (c : copier) : nat :=
  2 * length (src c) +
  match pc c with
  | AtRead => 1
  | AtWrite _ => 2
  | Returned => 0
  end.

Definition logsWork (s : logsState) : nat :=
  copierWork (outCopier s) + copierWork (errCopier s) +
  (if writerClosed s then 0 else 1).

(** What a copier has read and not yet written. *)
Definition inHand (c : copier) : list Byte.byte :=
  match pc c with
  | AtWrite chunk => chunk
  | _ => []
  end.

Definition running (c : copier) : nat :=
  match pc c with
  | Returned => 0
  | _ => 1
  end.

(** The invariant of a run of [Logs]: the pipe has received an interleaving
    of what the two copiers have passed on, each copier's stream splits into
    what it has passed on, what it holds and what is still to read, the wait
    group counts the copiers that have not returned, and the writer is
    closed only at count zero. *)
Definition logsInv (out err : list Byte.byte) (s : logsState) : Prop :=
  exists po pe,
    out = po ++ inHand (outCopier s) ++ src (outCopier s) /\
    err = pe ++ inHand (errCopier s) ++ src (errCopier s) /\
    merge po pe (merged s) /\
    (pc (outCopier s) = Returned -> src (outCopier s) = []) /\
    (pc (errCopier s) = Returned -> src (errCopier s) = []) /\
    wg s = running (outCopier s) + running (errCopier s) /\
    (writerClosed s = true -> wg s = 0).

(** ** Canonical absolute paths

    A path in the form [Clean] leaves behind for an absolute path: the
    separator, then elements that are not empty, hold no separator and are
    neither [.] nor [..], with one separator between neighbours. *)

Definition isNormal (e : string) : bool :=
  negb (String.eqb e "") && negb (hasSep e)
  && negb (String.eqb e ".") && negb (String.eqb e "..").

Definition absPath (elems : list string) : string :=
  "/" +:+ String.concat "/" elems.

(** What is left of [l] after the leading elements [pre], if it starts with
    them. *)
Fixpoint dropPrefix (pre l : list string) : option (list string) :=
  match pre, l with
  | [], _ => Some l
  | _ :: _, [] => None
  | p :: pre', x :: l' => if String.eqb p x then dropPrefix pre' l' else None
  end.

(** The list view of [relLoop]: equal leading elements are dropped; the
    first component is the base element at which the two part, if both
    still have one. *)
Fixpoint strip (rs fs : list string) : string * list string * list string :=
  match rs, fs with
  | r :: rs', f :: fs' =>
      if String.eqb r f then strip rs' fs' else (r, rs, fs)
  | _, _ => ("", rs, fs)
  end.

Fixpoint hasDot (s : string) : bool :=
  match s with
  | EmptyString => false
  | String c r => Ascii.eqb c "."%char || hasDot r
  end.

(** ** A small world to run the adapter in *)

Module demo.

Definition tree : gmap string node :=
  {[ "/p/Cargo.toml" := File "manifest";
     "/p/src/main.rs" := File "fn main";
     "/p/.cargo" := Directory;
     "/p/.cargo/config.toml" := File "override" ]}.

(** The project with a file that makes the build fail, the project with a
    file that makes the build succeed without an artifact, and the project
    without its manifest. *)
Definition broken : gmap string node := <["/p/broken" := File ""]> tree.
Definition quiet : gmap string node := <["/p/quiet" := File ""]> tree.
Definition bare : gmap string node := delete "/p/Cargo.toml" tree.

Definition world (fs : gmap string node) : OS :=
  {| files := fs; cwd := Some "/p"; environ := ["HOME=/home/dev"];
     nextPipe := 3; events := [] |}.

(** Decoders that know three blobs, and a build tool that fails when the
    project holds a file [broken], does nothing when it holds a file
    [quiet], and otherwise writes its artifact below [out]. *)
Definition X : Externals :=
  {| fs_FindUp := FindUp;
     json_Unmarshal blob dest :=
       if String.eqb blob "arm" then ({| Architecture := "arm_64" |}, None)
       else if String.eqb blob "{}" then (dest, None)
       else (dest, Some "invalid character");
     toml_DecodeCargoToml fs f dest :=
       match fs !! f with
       | Some (File "manifest") =>
           ({| Bin := [ {| Name := "other"; RequiredFeatures := ["z"] |};
                        {| Name := "main"; RequiredFeatures := ["a"; "b"] |} ] |},
            None)
       | _ => (dest, Some "toml: expected key")
       end;
     toml_DecodeCargoConfig fs f dest :=
       match fs !! f with
       | Some (File "override") =>
           ({| Build_ := {| TargetDir := Some "out" |} |}, None)
       | _ => (dest, Some "toml: expected key")
       end;
     cmd_CombinedOutput c fs :=
       match fs !! filepath.Join [Dir c; "broken"] with
       | Some _ => (fs, "error: could not compile", Some "exit status 101")
       | None =>
           match fs !! filepath.Join [Dir c; "quiet"] with
           | Some _ => (fs, "Finished", None)
           | None =>
               (<[filepath.Join [Dir c; "out/lambda/main/bootstrap"] := File "ELF"]> fs,
                "Finished", None)
           end
       end |}.

Definition input : BuildInput :=
  {| FunctionID := "fn"; Handler := "/p/src/main.rs"; Properties_ := "arm";
     Dev := false; Out_ := "/art/fn" |}.

(** The project on a system where a regular file [/art] stands in the way
    of the output directory [/art/fn]. *)
Definition blocked : gmap string node := <["/art" := File "lock"]> tree.

(** Decoders that meet well-formed but ill-typed input the way
    [encoding/json] and [BurntSushi/toml] do: what was decoded before the
    offending value stays in the destination, and the error is returned.
    The blob [retyped] stands for a JSON object that gives [architecture]
    twice, as the string [arm_64] and then as a number; the manifest
    [retyped] for two [[bin]] tables, of which the first is [main] with the
    required feature [a] and the second gives its [name] as a number. *)
Definition partial : Externals :=
  {| fs_FindUp := FindUp;
     json_Unmarshal blob dest :=
       if String.eqb blob "retyped"
       then ({| Architecture := "arm_64" |},
             Some "json: cannot unmarshal number into Go struct field")
       else json_Unmarshal X blob dest;
     toml_DecodeCargoToml fs f dest :=
       match fs !! f with
       | Some (File "retyped") =>
           ({| Bin := [ {| Name := "main"; RequiredFeatures := ["a"] |};
                        {| Name := ""; RequiredFeatures := [] |} ] |},
            Some "toml: incompatible types: TOML value has type int64")
       | _ => toml_DecodeCargoToml X fs f dest
       end;
     toml_DecodeCargoConfig := toml_DecodeCargoConfig X;
     cmd_CombinedOutput := cmd_CombinedOutput X |}.

Definition retyped : gmap string node :=
  <["/p/Cargo.toml" := File "retyped"]> tree.

Definition retypedInput : BuildInput :=
  {| FunctionID := "fn"; Handler := "/p/src/main.rs"; Properties_ := "retyped";
     Dev := false; Out_ := "/art/fn" |}.

(** The same project with a manifest and an override no decoder accepts,
    and a request whose properties are no better. *)
Definition garbled : gmap string node :=
  <["/p/Cargo.toml" := File "@@"]>
    (<["/p/.cargo/config.toml" := File "@@"]> tree).

Definition garbledInput : BuildInput :=
  {| FunctionID := "fn"; Handler := "/p/src/main.rs"; Properties_ := "@@";
     Dev := false; Out_ := "/art/fn" |}.

(** A child that writes [ok] on standard output and [e] on standard
    error, and the state after one run of [Logs] to the end. *)
Definition childStdout : list Byte.byte := [Byte.x6f; Byte.x6b].
Definition childStderr : list Byte.byte := [Byte.x65].

Definition drained : logsState :=
  {| outCopier := {| src := []; pc := Returned |};
     errCopier := {| src := []; pc := Returned |};
     wg := 0; writerClosed := true;
     merged := [Byte.x6f; Byte.x65; Byte.x6b] |}.

End demo.

(** A second small tree, with its directories entered: an artifact in its
    build directory and a directory where a file is expected. *)
Module sample.

Definition tree : gmap string node :=
  {[ "/srv" := Directory;
     "/srv/app" := Directory;
     "/srv/app/bootstrap" := File "ELF";
     "/srv/app/cache" := Directory;
     "/srv/old" := Directory;
     "/srv/old/bootstrap" := File "previous" ]}.

Definition world : OS :=
  {| files := tree; cwd := Some "/srv"; environ := []; nextPipe := 3;
     events := [] |}.

(** A project addressed by relative paths, in a process whose working
    directory can no longer be determined. *)
Definition lostTree : gmap string node :=
  {[ "Cargo.toml" := File "manifest"; "src/main.rs" := File "fn main" ]}.

Definition lostBuilt : gmap string node :=
  <["out/lambda/main/bootstrap" := File "ELF"]> lostTree.

Definition lostWorld : OS :=
  {| files := lostTree; cwd := None; environ := []; nextPipe := 3;
     events := [] |}.

Definition lostInput : BuildInput :=
  {| FunctionID := "fn"; Handler := "src/main.rs"; Properties_ := "{}";
     Dev := true; Out_ := "art" |}.

(** A child that writes [ok] on standard output and nothing on standard
    error, and the state after a run of [Logs] to the end. *)
Definition quietDrained : logsState :=
  {| outCopier := {| src := []; pc := Returned |};
     errCopier := {| src := []; pc := Returned |};
     wg := 0; writerClosed := true;
     merged := [Byte.x6f; Byte.x6b] |}.

End sample.

(** * Properties *)

(** ** [Clean], [Dir], [Base], [Ext] and [Rel] on test vectors of Go's
       [path/filepath] package *)

Example Clean_tests :
  map filepath.Clean
    ["abc"; "a/b/c"; "."; ".."; "../../abc"; "/abc"; "/"; ""; "abc/";
     "./"; "../../"; "abc//def//ghi"; "/./abc/def"; "abc/def/../ghi/../jkl";
     "abc/def/../.."; "/abc/def/../../.."; "abc/def/../../..";
     "abc/def/../../../ghi/jkl/../../../mno"; "/../abc"; "abc//./../def";
     "abc/../../././../def"; "//abc//"]
  = ["abc"; "a/b/c"; "."; ".."; "../../abc"; "/abc"; "/"; "."; "abc";
     "."; "../.."; "abc/def/ghi"; "/abc/def"; "abc/jkl";
     "."; "/"; "..";
     "../../mno"; "/abc"; "def";
     "../../def"; "/abc"].
Proof. vm_compute. reflexivity. Qed.

Example Dir_Base_Ext_tests :
  map filepath.Dir [""; "."; "/"; "/foo"; "x/"; "abc"; "abc/def"; "a/b/.x"; "/a/b/c.rs"]
    = ["."; "."; "/"; "/"; "x"; "."; "abc"; "a/b"; "/a/b"] /\
  map filepath.Base [""; "."; "/."; "/"; "////"; "x/"; "abc"; "abc/def"; "a/b/.x"]
    = ["."; "."; "."; "/"; "/"; "x"; "abc"; "def"; ".x"] /\
  map filepath.Ext ["path.go"; "path.pb.go"; "a.dir/b"; "a.dir/b.go"; "a.dir/"; "x/main.rs"]
    = [".go"; ".go"; ""; ".go"; ""; ".rs"].
Proof. vm_compute. repeat split. Qed.

Example Rel_tests :
  map (fun '(b, t) => filepath.Rel b t)
    [("a/b", "a/b"); ("a/b/.", "a/b"); ("a/b", "a/b/.");
     ("./a/b", "a/b"); ("a/b", "./a/b"); ("ab/cd", "ab/cde");
     ("ab/cd", "ab/c"); ("a/b", "a/b/c/d"); ("a/b", "a/b/../c");
     ("a/b/../c", "a/b"); ("a/b/c", "a/c/d"); ("a/b", "c/d");
     ("a/b/c/d", "a/b"); ("a/b/c/d", "a/b/"); ("a/b/c/d/", "a/b");
     ("a/b/c/d/", "a/b/"); ("../../a/b", "../../a/b/c/d");
     ("/a/b", "/a/b"); ("/a/b/.", "/a/b"); ("/a/b", "/a/b/.");
     ("/ab/cd", "/ab/cde"); ("/ab/cd", "/ab/c"); ("/a/b", "/a/b/c/d");
     ("/a/b", "/a/b/../c"); ("/a/b/../c", "/a/b"); ("/a/b/c", "/a/c/d");
     ("/a/b", "/c/d"); ("/a/b/c/d", "/a/b"); ("/a/b/c/d", "/a/b/");
     ("/a/b/c/d/", "/a/b"); ("/a/b/c/d/", "/a/b/");
     ("/../../a/b", "/../../a/b/c/d"); (".", "a/b"); (".", "..")]
  = map (fun rel => (rel, None))
    ["."; "."; "."; "."; "."; "../cde"; "../c"; "c/d"; "../c"; "../b";
     "../../c/d"; "../../c/d"; "../.."; "../.."; "../.."; "../.."; "c/d";
     "."; "."; "."; "../cde"; "../c"; "c/d"; "../c"; "../b"; "../../c/d";
     "../../c/d"; "../.."; "../.."; "../.."; "../.."; "c/d"; "a/b"; ".."] /\
  map (fun '(b, t) => match (filepath.Rel b t).2 with Some _ => true | None => false end)
    [("..", "."); ("..", "a"); ("a", "/a"); ("/a", "a")]
  = [true; true; true; true].
Proof. vm_compute. split; reflexivity. Qed.

(** ** Paths: cleaning never lengthens, and the way up ends *)

Lemma strlen_app (s t : string) :
  String.length (s +:+ t) = String.length s + String.length t.
Proof. induction s as [|c s IH]; cbn; [reflexivity | now rewrite <- IH]. Qed.

Lemma weight_cons e l : weight (e :: l) = S (String.length e) + weight l.
Proof. reflexivity. Qed.

Lemma weight_app l1 l2 : weight (l1 ++ l2) = weight l1 + weight l2.
Proof. unfold weight. rewrite map_app, list_sum_app. reflexivity. Qed.

Lemma weight_rev l : weight (rev l) = weight l.
Proof.
  induction l as [|e l IH]; [reflexivity|].
  cbn [rev]. rewrite weight_app, IH, !weight_cons.
  change (weight []) with 0. lia.
Qed.

Lemma weightNE_app l1 l2 : weightNE (l1 ++ l2) = weightNE l1 + weightNE l2.
Proof. unfold weightNE. rewrite map_app, list_sum_app. reflexivity. Qed.

Lemma weightNE_cons e l :
  weightNE (e :: l)
  = (if String.eqb e "" then 0 else S (String.length e)) + weightNE l.
Proof. reflexivity. Qed.

Lemma weightNE_le l : weightNE l <= weight l.
Proof.
  induction l as [|e l IH]; [reflexivity|].
  rewrite weightNE_cons, weight_cons.
  destruct (String.eqb e ""); lia.
Qed.

Lemma length_join l :
  l <> [] -> S (String.length (String.concat "/" l)) = weight l.
Proof.
  induction l as [|e l IH]; [congruence|intros _].
  destruct l as [|e' l]; [cbn; lia|].
  change (String.concat "/" (e :: e' :: l))
    with (e +:+ "/" +:+ String.concat "/" (e' :: l)).
  rewrite !strlen_app, weight_cons, <- IH by congruence. cbn. lia.
Qed.

Lemma split_not_nil s : filepath.split s <> [].
Proof.
  destruct s as [|c r]; cbn; [congruence|].
  destruct (filepath.isSep c); [congruence|].
  destruct (filepath.split r); congruence.
Qed.

Lemma weight_split s : weight (filepath.split s) = S (String.length s).
Proof.
  induction s as [|c r IH]; [reflexivity|].
  cbn [filepath.split]. destruct (filepath.isSep c).
  - rewrite weight_cons, IH. reflexivity.
  - destruct (filepath.split r) as [|x xs] eqn:E; [now apply split_not_nil in E|].
    rewrite weight_cons in *. cbn in *. lia.
Qed.

Lemma split_snoc_sep q :
  filepath.split (q +:+ "/") = filepath.split q ++ [""].
Proof.
  induction q as [|c r IH]; [reflexivity|].
  change (String c r +:+ "/") with (String c (r +:+ "/")).
  cbn [filepath.split]. rewrite IH. destruct (filepath.isSep c); [reflexivity|].
  destruct (filepath.split r) as [|x xs] eqn:E; [now apply split_not_nil in E|].
  reflexivity.
Qed.

Lemma cleanStep_weight rooted out e :
  weight (filepath.cleanStep rooted out e)
  <= weight out + (if String.eqb e "" then 0 else S (String.length e)).
Proof.
  unfold filepath.cleanStep.
  destruct (String.eqb e "") eqn:E0; [lia|].
  destruct (String.eqb e "."); [lia|].
  destruct (String.eqb e "..").
  - destruct out as [|top rest].
    + destruct rooted; cbn; lia.
    + destruct (String.eqb top ".."); [destruct rooted|];
        rewrite ?weight_cons; lia.
  - rewrite weight_cons. lia.
Qed.

Lemma fold_cleanStep_weight rooted l out :
  weight (fold_left (filepath.cleanStep rooted) l out) <= weight out + weightNE l.
Proof.
  revert out. induction l as [|e l IH]; intros out; cbn [fold_left].
  - unfold weightNE. cbn. lia.
  - etransitivity; [apply IH|].
    pose proof (cleanStep_weight rooted out e).
    rewrite weightNE_cons. lia.
Qed.

Lemma isSep_true c : filepath.isSep c = true -> c = "/"%char.
Proof. apply Ascii.eqb_eq. Qed.

Lemma HasPrefix_sep c r :
  strings.HasPrefix (String c r) "/" = filepath.isSep c.
Proof.
  unfold strings.HasPrefix, filepath.isSep.
  change (String.prefix "/" (String c r))
    with (if ascii_dec "/"%char c then String.prefix "" r else false).
  destruct (ascii_dec "/"%char c) as [<-|n].
  - destruct r; reflexivity.
  - symmetry. apply Ascii.eqb_neq. congruence.
Qed.

(** A path that ends in a separator gets strictly shorter when cleaned,
    the root apart. *)
Lemma Clean_length_lt q :
  q <> "" ->
  String.length (filepath.Clean (q +:+ "/")) < String.length (q +:+ "/").
Proof.
  intros Hq. destruct q as [|c q0]; [congruence|].
  unfold filepath.Clean.
  change (String c q0 +:+ "/") with (String c (q0 +:+ "/")).
  cbn [String.eqb]. rewrite HasPrefix_sep.
  change (String c (q0 +:+ "/")) with (String c q0 +:+ "/").
  rewrite split_snoc_sep.
  set (out := fold_left _ _ _).
  assert (Hw : weight out <= weightNE (filepath.split (String c q0))).
  { subst out. etransitivity; [apply fold_cleanStep_weight|].
    rewrite weightNE_app. unfold weightNE at 3. cbn. lia. }
  rewrite strlen_app. cbn [String.length]. cbn [Nat.add].
  destruct (filepath.isSep c) eqn:Ec.
  - assert (Hw' : weight out <= S (String.length q0)).
    { etransitivity; [exact Hw|].
      cbn [filepath.split]. rewrite Ec.
      change (weightNE ("" :: filepath.split q0)) with (weightNE (filepath.split q0)).
      rewrite <- weight_split. apply weightNE_le. }
    change ("/" +:+ ?x) with (String "/" x). cbn [String.length].
    destruct (rev out) as [|e l] eqn:Er; [cbn; lia|].
    pose proof (length_join (e :: l) ltac:(congruence)) as Hl.
    assert (weight (e :: l) = weight out) by (rewrite <- Er; apply weight_rev).
    lia.
  - assert (Hw' : weight out <= S (S (String.length q0))).
    { etransitivity; [exact Hw|]. etransitivity; [apply weightNE_le|].
      rewrite weight_split. reflexivity. }
    destruct (rev out) as [|e l] eqn:Er; [cbn; lia|].
    pose proof (length_join (e :: l) ltac:(congruence)) as Hl.
    assert (weight (e :: l) = weight out) by (rewrite <- Er; apply weight_rev).
    lia.
Qed.

Lemma dirPrefix_cases p :
  filepath.dirPrefix p = "" \/
  exists q, filepath.dirPrefix p = q +:+ "/" /\ String.length q < String.length p.
Proof.
  induction p as [|c r IH]; [now left|].
  cbn [filepath.dirPrefix].
  destruct IH as [-> | (q & -> & Hlen)].
  - destruct (filepath.isSep c); [right; exists ""; cbn; split; [reflexivity|lia] | now left].
  - right. exists (String c q). split; [|cbn; lia].
    destruct q; reflexivity.
Qed.

(** One step up lands on the root, on ["."], or shortens the path. *)
Lemma Dir_cases p :
  filepath.Dir p = "/" \/ filepath.Dir p = "." \/
  String.length (filepath.Dir p) < String.length p.
Proof.
  unfold filepath.Dir.
  destruct (dirPrefix_cases p) as [E | (q & E & Hlen)]; rewrite E.
  - right; left; reflexivity.
  - destruct q as [|c q].
    + left. reflexivity.
    + right; right.
      pose proof (Clean_length_lt (String c q) ltac:(congruence)) as H.
      rewrite strlen_app in H. cbn in H, Hlen |- *. cbn. lia.
Qed.

(** Only the root and ["."] are their own parent. *)
Lemma Dir_fixed p : filepath.Dir p = p -> p = "/" \/ p = ".".
Proof.
  intros E. destruct (Dir_cases p) as [H | [H | H]].
  - left. congruence.
  - right. congruence.
  - rewrite E in H. lia.
Qed.

(** Fuel beyond [length + 2] changes nothing: the walk has reached a
    directory that is its own parent. *)
Lemma walk_fuel p : forall n m,
  String.length p + 2 <= n -> String.length p + 2 <= m ->
  walk n p = walk m p.
Proof.
  remember (String.length p) as k eqn:Hk. revert p Hk.
  induction k as [k IH] using lt_wf_ind. intros p Hk n m Hn Hm.
  destruct n as [|n]; [lia|]. destruct m as [|m]; [lia|].
  cbn [walk]. f_equal.
  destruct (String.eqb (filepath.Dir p) p) eqn:E; [reflexivity|].
  destruct (Dir_cases p) as [H | [H | H]].
  - rewrite H. destruct n as [|n]; [lia|]. destruct m as [|m]; [lia|].
    reflexivity.
  - rewrite H. destruct n as [|n]; [lia|]. destruct m as [|m]; [lia|].
    reflexivity.
  - apply (IH (String.length (filepath.Dir p))); lia.
Qed.

(** With that much fuel the walk ends on a directory that is its own
    parent: the root, or ["."] for a relative path. *)
Lemma walk_top p : forall n,
  String.length p + 2 <= n ->
  exists up top, walk n p = up ++ [top] /\ filepath.Dir top = top.
Proof.
  remember (String.length p) as k eqn:Hk. revert p Hk.
  induction k as [k IH] using lt_wf_ind. intros p Hk n Hn.
  destruct n as [|n]; [lia|]. cbn [walk].
  destruct (String.eqb (filepath.Dir p) p) eqn:E.
  - apply String.eqb_eq in E. exists [], p. split; [reflexivity | exact E].
  - destruct (Dir_cases p) as [H | [H | H]].
    + rewrite H. destruct n as [|n]; [lia|].
      exists [p], "/". split; reflexivity.
    + rewrite H. destruct n as [|n]; [lia|].
      exists [p], ".". split; reflexivity.
    + destruct (IH (String.length (filepath.Dir p)) ltac:(lia)
                   (filepath.Dir p) eq_refl n ltac:(lia))
        as (up & top & Hw & Ht).
      exists (p :: up), top. rewrite Hw. split; [reflexivity | exact Ht].
Qed.

Lemma ancestors_top p :
  exists up top, ancestors p = up ++ [top] /\ filepath.Dir top = top.
Proof. apply walk_top. reflexivity. Qed.

Lemma walk_fuel_enough p n :
  String.length p + 2 <= n -> walk n p = ancestors p.
Proof. intros H. apply walk_fuel; [exact H | reflexivity]. Qed.

(** ** Names and extensions *)

Lemma split_hasSep s : Forall (fun e => hasSep e = false) (filepath.split s).
Proof.
  induction s as [|c r IH]; cbn [filepath.split]; [repeat constructor|].
  destruct (filepath.isSep c) eqn:Ec; [constructor; [reflexivity | exact IH]|].
  destruct (filepath.split r) as [|x xs]; [repeat constructor; cbn; now rewrite Ec|].
  inversion IH as [|? ? Hx Hxs]; subst. constructor; [|exact Hxs].
  cbn. now rewrite Ec, Hx.
Qed.

Lemma split_noSep e : hasSep e = false -> filepath.split e = [e].
Proof.
  induction e as [|c r IH]; [reflexivity|]. cbn.
  destruct (filepath.isSep c); [discriminate|]. cbn. intros H.
  now rewrite (IH H).
Qed.

Lemma last_hasSep s : hasSep (List.last (filepath.split s) "") = false.
Proof.
  pose proof (split_hasSep s) as H.
  induction (filepath.split s) as [|x [|y l] IH]; [reflexivity | |].
  - now inversion H.
  - inversion H; subst. now apply IH.
Qed.

Lemma filter_last_nonempty (l : list string) :
  List.last l "" <> "" ->
  exists rest, rev (filter (fun e => e <> "") l) = List.last l "" :: rest.
Proof.
  induction l as [|x [|y l] IH]; intros H.
  - contradiction.
  - cbn in H. rewrite filter_cons, decide_True by exact H. now exists [].
  - destruct (IH H) as (rest & E).
    change (List.last (x :: y :: l) "") with (List.last (y :: l) "").
    rewrite filter_cons. destruct (decide (x <> "")).
    + cbn [rev]. rewrite E. now exists (rest ++ [x]).
    + rewrite E. now exists rest.
Qed.

(** For a path that ends in a file name, [Base] is that name and the
    extension of the path is the extension of the name. *)
Lemma Base_Ext_of_file path :
  namesFile path ->
  filepath.Base path = List.last (filepath.split path) "" /\
  filepath.Ext (filepath.Base path) = filepath.Ext path.
Proof.
  intros H. unfold namesFile in H.
  assert (HB : filepath.Base path = List.last (filepath.split path) "").
  { unfold filepath.Base. destruct path as [|c r]; [now cbn in H|].
    cbn [String.eqb].
    destruct (filter_last_nonempty _ H) as (rest & ->). reflexivity. }
  split; [exact HB|].
  unfold filepath.Ext at 1. rewrite HB, split_noSep by apply last_hasSep.
  reflexivity.
Qed.

(** [HasSuffix] and [TrimSuffix], by decomposition. *)
Lemma substring_all s : String.substring 0 (String.length s) s = s.
Proof. induction s as [|c r IH]; cbn; [reflexivity | now rewrite IH]. Qed.

Lemma substring_skip pre suf :
  String.substring (String.length pre) (String.length suf) (pre +:+ suf) = suf.
Proof.
  induction pre as [|c r IH]; [apply substring_all|].
  exact IH.
Qed.

Lemma substring_split s k :
  k <= String.length s ->
  s = String.substring 0 (String.length s - k) s
      +:+ String.substring (String.length s - k) k s.
Proof.
  induction s as [|c r IH]; intros Hk.
  - cbn in Hk. assert (k = 0) as -> by lia. reflexivity.
  - cbn [String.length] in *.
    destruct (decide (k = S (String.length r))) as [->|Hne].
    + rewrite Nat.sub_diag. cbn [String.substring].
      change ("" +:+ ?x) with x.
      pose proof (substring_all (String c r)) as E. cbn in E. now rewrite E.
    + replace (S (String.length r) - k) with (S (String.length r - k)) by lia.
      cbn [String.substring].
      change (String c ?x +:+ ?y) with (String c (x +:+ y)).
      f_equal. apply IH. lia.
Qed.

Lemma HasSuffix_iff s suffix :
  strings.HasSuffix s suffix = true <-> exists pre, s = pre +:+ suffix.
Proof.
  unfold strings.HasSuffix. rewrite andb_true_iff, Nat.leb_le, String.eqb_eq.
  split.
  - intros [Hlen E].
    pose proof (substring_split s (String.length suffix) Hlen) as H.
    rewrite E in H. eexists. exact H.
  - intros [pre ->]. rewrite strlen_app. split; [lia|].
    replace (String.length pre + String.length suffix - String.length suffix)
      with (String.length pre) by lia.
    apply substring_skip.
Qed.

Lemma split_app_noSep a b :
  hasSep b = false ->
  filepath.split (a +:+ b)
  = removelast (filepath.split a) ++ [List.last (filepath.split a) "" +:+ b].
Proof.
  intros Hb. induction a as [|c r IH].
  - change ("" +:+ b) with b. now rewrite split_noSep.
  - change (String c r +:+ b) with (String c (r +:+ b)).
    cbn [filepath.split]. rewrite IH.
    pose proof (split_not_nil r) as Hr.
    destruct (filepath.split r) as [|x [|y l]]; [contradiction| |];
      destruct (filepath.isSep c); reflexivity.
Qed.

Lemma last_split_app_noSep a b :
  hasSep b = false ->
  List.last (filepath.split (a +:+ b)) "" = List.last (filepath.split a) "" +:+ b.
Proof. intros Hb. rewrite split_app_noSep by exact Hb. apply last_last. Qed.

Lemma extOf_app_rs e : filepath.extOf (e +:+ ".rs") = ".rs".
Proof.
  induction e as [|c r IH]; [reflexivity|].
  change (String c r +:+ ".rs") with (String c (r +:+ ".rs")).
  cbn [filepath.extOf]. now rewrite IH.
Qed.

Lemma extOf_suffix e : exists pre, e = pre +:+ filepath.extOf e.
Proof.
  induction e as [|c r [pre IH]]; [now exists ""|].
  cbn [filepath.extOf]. destruct (filepath.extOf r) as [|d x] eqn:E.
  - destruct (Ascii.eqb c "."%char); [now exists ""|].
    exists (String c r). clear. induction (String c r) as [|a t IHt]; [reflexivity|].
    change (String a t +:+ "") with (String a (t +:+ "")). now rewrite <- IHt.
  - exists (String c pre). change (String c pre +:+ ?y) with (String c (pre +:+ y)).
    now rewrite <- IH.
Qed.

Lemma join_split s : String.concat "/" (filepath.split s) = s.
Proof.
  induction s as [|c r IH]; [reflexivity|].
  cbn [filepath.split]. pose proof (split_not_nil r) as Hr.
  destruct (filepath.isSep c) eqn:Ec.
  - apply isSep_true in Ec. subst c.
    destruct (filepath.split r) as [|x l]; [contradiction|].
    change (String.concat "/" ("" :: x :: l))
      with (String "/" (String.concat "/" (x :: l))).
    now rewrite IH.
  - destruct (filepath.split r) as [|x [|y l]]; [contradiction| |].
    + cbn in IH |- *. now rewrite IH.
    + change (String.concat "/" (String c x :: y :: l))
        with (String c (String.concat "/" (x :: y :: l))).
      now rewrite IH.
Qed.

Lemma concat_last (l : list string) :
  l <> [] -> exists pre, String.concat "/" l = pre +:+ List.last l "".
Proof.
  induction l as [|x [|y l] IH]; intros H; [contradiction| |].
  - now exists "".
  - destruct (IH ltac:(congruence)) as [pre E].
    exists (x +:+ "/" +:+ pre).
    change (String.concat "/" (x :: y :: l))
      with (x +:+ "/" +:+ String.concat "/" (y :: l)).
    change (List.last (x :: y :: l) "") with (List.last (y :: l) "").
    rewrite E. clear. induction x as [|a t IHt]; [reflexivity|].
    change (String a t +:+ ?z) with (String a (t +:+ z)). now rewrite IHt.
Qed.

Lemma last_split_suffix s : exists pre, s = pre +:+ List.last (filepath.split s) "".
Proof.
  destruct (concat_last (filepath.split s) (split_not_nil s)) as [pre E].
  exists pre. now rewrite <- E, join_split.
Qed.

Lemma strapp_assoc (a b c : string) : (a +:+ b) +:+ c = a +:+ (b +:+ c).
Proof.
  induction a as [|x t IH]; [reflexivity|].
  change ((String x t +:+ b) +:+ c) with (String x ((t +:+ b) +:+ c)).
  change (String x t +:+ (b +:+ c)) with (String x (t +:+ (b +:+ c))).
  now rewrite IH.
Qed.

(** The test [strings.HasSuffix(file, ".rs")] is the test "the extension of
    [file] is [.rs]". *)
Lemma HasSuffix_rs_iff_Ext file :
  strings.HasSuffix file ".rs" = true <-> filepath.Ext file = ".rs".
Proof.
  rewrite HasSuffix_iff. unfold filepath.Ext. split.
  - intros [pre ->]. rewrite last_split_app_noSep by reflexivity.
    apply extOf_app_rs.
  - intros E. destruct (last_split_suffix file) as [pre Hp].
    destruct (extOf_suffix (List.last (filepath.split file) "")) as [pre' He].
    rewrite E in He. exists (pre +:+ pre').
    rewrite strapp_assoc, <- He. exact Hp.
Qed.

(** ** [Match] *)

(** C10: [Match] answers true for the identifier ["rust"] and for no other
    string; ["Rust"], ["rust2021"] and the empty string are refused. *)
Theorem Match_iff_rust :
  (forall runtime : string, Match runtime = true <-> runtime = "rust") /\
  Match "Rust" = false /\ Match "rust2021" = false /\ Match "" = false.
Proof.
  split; [| repeat split].
  intros runtime. unfold Match. apply String.eqb_eq.
Qed.

(** ** [ShouldRebuild] *)

(** What [ShouldRebuild] computes: the file has the suffix [.rs], a root is
    recorded for the function, [Rel] succeeds, and its result does not start
    with the two characters [..]. *)
Lemma ShouldRebuild_true_iff r functionID file :
  ShouldRebuild r functionID file = true <->
  filepath.Ext file = ".rs" /\
  exists root rel,
    directories r !! functionID = Some root /\
    filepath.Rel root file = (rel, None) /\
    strings.HasPrefix rel ".." = false.
Proof.
  rewrite <- HasSuffix_rs_iff_Ext. unfold ShouldRebuild.
  destruct (strings.HasSuffix file ".rs"); cbn [negb].
  2:{ split; [discriminate | intros [? _]; discriminate]. }
  destruct (directories r !! functionID) as [root|].
  2:{ split; [discriminate | intros (_ & ? & ? & ? & _); discriminate]. }
  destruct (filepath.Rel root file) as [rel [e|]] eqn:E.
  - split; [discriminate | intros (_ & root' & rel' & [= <-] & H & _)].
    rewrite E in H. discriminate.
  - rewrite negb_true_iff. split.
    + intros H. split; [reflexivity|]. now exists root, rel.
    + intros (_ & root' & rel' & [= <-] & H & Hp). rewrite E in H.
      now inversion H.
Qed.

(** C3, at the input where the code departs from it: a source file below the
    recorded root, in a directory whose name merely starts with two dots.
    Its relative path does not begin with a parent-directory element, and
    [ShouldRebuild] still answers false. *)
Theorem ShouldRebuild_dotdot_named_dir :
  let r := {| directories := {[ "fn" := "/root" ]} |} in
  filepath.Rel "/root" "/root/..cache/x.rs" = ("..cache/x.rs", None) /\
  firstElem "..cache/x.rs" <> ".." /\
  ShouldRebuild r "fn" "/root/..cache/x.rs" = false.
Proof. vm_compute. repeat split; congruence. Qed.

(** ** [Build] *)

Lemma requiredFeaturesOf_find bins name :
  requiredFeaturesOf bins name = featuresOf {| Bin := bins |} name.
Proof.
  unfold featuresOf. simpl.
  induction bins as [|v bins IH]; simpl; [reflexivity|].
  destruct (String.eqb (Name v) name); [reflexivity | exact IH].
Qed.

Lemma Build_args name dev arch (features : list string) :
  "cargo" ::
    (let args := ["lambda"; "build"; "--bin"; name] in
     let args := if negb dev then args ++ ["--release"] else args in
     let args := if String.eqb arch "arm_64" then args ++ ["--arm64"] else args in
     let args := args ++ ["--no-default-features"] in
     if 0 <? length features
     then args ++ ["--features"; strings.Join features ","]
     else args)
  = commandLine name dev arch features.
Proof.
  unfold commandLine, strings.Join.
  destruct dev, (String.eqb arch "arm_64"), features; reflexivity.
Qed.

(** [Build] stops at once when the manifest lookup fails. *)
Lemma Build_not_found X r input w p err :
  fs_FindUp X (files w) (Handler input) "Cargo.toml" = (p, Some err) ->
  Build X r input w = (None, Some err, r, w).
Proof. intros H. unfold Build. rewrite H. reflexivity. Qed.

(** [Build] after a successful lookup, by the outcome of the command. *)
Lemma Build_found X r input w cargoTomlFile :
  fs_FindUp X (files w) (Handler input) "Cargo.toml" = (cargoTomlFile, None) ->
  let c := buildCmd X input w cargoTomlFile in
  let root := rootOf cargoTomlFile in
  Build X r input w =
    let '(fs', output, err) := cmd_CombinedOutput X c (files w) in
    let w1 := emit (EvCombinedOutput c) (setFiles fs' w) in
    match err with
    | Some _ => (Some (failedBuild output), None, r, w1)
    | None =>
        let w2 :=
          (copyFile (artifactPath root (overrideOf X w root)
                                  (artifactName (Handler input)))
                    (filepath.Join [Out_ input; "bootstrap"]) w1).2 in
        (Some (successfulBuild (Out_ input)), None,
         {| directories :=
              <[FunctionID input := (os.Abs w2 root).1]> (directories r) |},
         w2)
    end.
Proof.
  intros H c root. unfold Build. rewrite H.
  rewrite requiredFeaturesOf_find.
  unfold CombinedOutput, process_Command. cbn [Path Args Stdout Stderr].
  rewrite Build_args.
  change (mkCmd _ _ _ _ _ _) with c.
  destruct (cmd_CombinedOutput X c (files w)) as [[fs' output] [e|]]; [reflexivity|].
  cbv zeta.
  replace (match TargetDir (Build_ _) with
           | Some targetDir => filepath.Join [filepath.Dir cargoTomlFile; targetDir]
           | None => filepath.Join [filepath.Dir cargoTomlFile; "target"]
           end)
    with (filepath.Join [root; match overrideOf X w root with
                               | Some d => d | None => "target" end]).
  2:{ unfold overrideOf, root, rootOf.
      destruct (FindClosestCargoConfig (files w) (filepath.Dir cargoTomlFile));
        [destruct (TargetDir _)|]; reflexivity. }
  fold (artifactName (Handler input)).
  unfold artifactPath.
  destruct (copyFile _ _ _) as [e w2]. reflexivity.
Qed.

Lemma copyFile_events src dst w :
  events (copyFile src dst w).2 = events w \/
  events (copyFile src dst w).2 = events w ++ [EvSync dst].
Proof.
  unfold copyFile.
  destruct (os.Open src (files w)); [now left|].
  destruct (os.MkdirAll _ _) as [[e|] fs1]; [now left|].
  destruct (os.Create dst fs1) as [[e|] fs2]; [now left|].
  destruct (os.Stat fs2 src) as [[c|]|]; [now right | now left | now left].
Qed.

(** C1: once the manifest is located, [Build] runs exactly one command: the
    line [cargo lambda build --bin <artifact>], where the artifact is the
    handler's base name with the handler's extension taken off (which is the
    base name's own extension whenever the handler ends in a file name),
    with [--release] unless the request is for development, [--arm64]
    exactly for the architecture ["arm_64"], always [--no-default-features],
    and [--features] with the artifact's features joined by commas, in the
    manifest's order, exactly when there are any; it runs in the project
    root with the inherited environment, its two output streams captured as
    one. *)
Theorem Build_composes_command X r input w cargoTomlFile :
  fs_FindUp X (files w) (Handler input) "Cargo.toml" = (cargoTomlFile, None) ->
  let artifact := artifactName (Handler input) in
  let features := featuresOf (manifestOf X w cargoTomlFile) artifact in
  let c :=
    {| Path := "cargo";
       Args := ["cargo"; "lambda"; "build"; "--bin"; artifact]
               ++ (if Dev input then [] else ["--release"])
               ++ (if String.eqb (Architecture (propertiesOf X input)) "arm_64"
                   then ["--arm64"] else [])
               ++ ["--no-default-features"]
               ++ (match features with
                   | [] => []
                   | _ :: _ => ["--features"; String.concat "," features]
                   end);
       Env := environ w;
       Dir := filepath.Dir cargoTomlFile;
       Stdout := None; Stderr := None |} in
  (namesFile (Handler input) ->
   artifact = strings.TrimSuffix (filepath.Base (Handler input))
                                 (filepath.Ext (filepath.Base (Handler input)))) /\
  exists rest,
    events (Build X r input w).2 = events w ++ EvCombinedOutput c :: rest /\
    (rest = [] \/ rest = [EvSync (filepath.Join [Out_ input; "bootstrap"])]).
Proof.
  intros H artifact features c. split.
  { intros Hf. subst artifact. unfold artifactName.
    now rewrite (proj2 (Base_Ext_of_file _ Hf)). }
  rewrite (Build_found X r input w cargoTomlFile H).
  change (buildCmd X input w cargoTomlFile) with c.
  destruct (cmd_CombinedOutput X c (files w)) as [[fs' output] [e|]].
  - exists []. split; [reflexivity | now left].
  - cbv zeta. cbn [snd].
    match goal with |- context [copyFile ?s ?d ?w1] =>
      destruct (copyFile_events s d w1) as [E|E] end.
    + exists []. rewrite E. split; [reflexivity | now left].
    + eexists. rewrite E. cbn [events emit setFiles]. rewrite <- app_assoc.
      split; [reflexivity | now right].
Qed.

Lemma Build_composes_command_witness :
  artifactName "/p/src/main.rs" = "main" /\
  exists rest,
    events (Build demo.X New demo.input (demo.world demo.tree)).2
    = [] ++ EvCombinedOutput
        {| Path := "cargo";
           Args := ["cargo"; "lambda"; "build"; "--bin"; "main"; "--release";
                    "--arm64"; "--no-default-features"; "--features"; "a,b"];
           Env := ["HOME=/home/dev"]; Dir := "/p";
           Stdout := None; Stderr := None |} :: rest /\
    (rest = [] \/ rest = [EvSync "/art/fn/bootstrap"]).
Proof.
  destruct (Build_composes_command demo.X New demo.input (demo.world demo.tree)
              "/p/Cargo.toml" ltac:(vm_compute; reflexivity)) as [_ H].
  split; [reflexivity | exact H].
Defined.

(** C4: when the command fails, [Build] returns a result and no error
    value; the result's error list is the captured output and nothing else,
    its handler, source maps and output directory are zero values, and the
    adapter's directory table is the one it started with. *)
Theorem Build_command_failure X r input w cargoTomlFile fs' output err :
  fs_FindUp X (files w) (Handler input) "Cargo.toml" = (cargoTomlFile, None) ->
  cmd_CombinedOutput X (buildCmd X input w cargoTomlFile) (files w)
    = (fs', output, Some err) ->
  exists w',
    Build X r input w =
      (Some {| Out := ""; Handler_ := ""; Errors := Some [output];
               Sourcemaps := None |},
       None, r, w') /\
    events w' = events w ++ [EvCombinedOutput (buildCmd X input w cargoTomlFile)].
Proof.
  intros Hfind Hrun.
  rewrite (Build_found X r input w cargoTomlFile Hfind). cbv zeta.
  rewrite Hrun. eexists. split; reflexivity.
Qed.

Lemma Build_command_failure_witness :
  exists w',
    Build demo.X New demo.input
          (demo.world demo.broken) =
      (Some {| Out := ""; Handler_ := "";
               Errors := Some ["error: could not compile"];
               Sourcemaps := None |},
       None, New, w') /\
    events w' =
      [] ++ [EvCombinedOutput
               (buildCmd demo.X demo.input
                  (demo.world demo.broken)
                  "/p/Cargo.toml")].
Proof.
  exact (Build_command_failure demo.X New demo.input
           (demo.world demo.broken)
           "/p/Cargo.toml" demo.broken
           "error: could not compile" "exit status 101"
           ltac:(vm_compute; reflexivity) ltac:(vm_compute; reflexivity)).
Defined.

Lemma findUpLoop_none n fs dir fileName :
  Forall (fun d => os.statOk fs (filepath.Join [d; fileName]) = false)
         (walk n dir) ->
  findUpLoop n fs dir fileName = ("", Some "file not found").
Proof.
  revert dir. induction n as [|n IH]; intros dir H; [reflexivity|].
  cbn [walk findUpLoop] in *. inversion H as [|? ? Hd Hrest]; subst.
  rewrite Hd. destruct (String.eqb (filepath.Dir dir) dir); [reflexivity|].
  now apply IH.
Qed.

(** C6: when the manifest lookup fails, [Build] returns the lookup's error
    and no result, nothing has been run and the adapter's state is
    untouched; and the lookup does fail when there is no [Cargo.toml] in the
    handler's directory or in any directory above it. *)
Theorem Build_no_manifest X r input w :
  (forall p err,
     fs_FindUp X (files w) (Handler input) "Cargo.toml" = (p, Some err) ->
     Build X r input w = (None, Some err, r, w)) /\
  (fs_FindUp X = FindUp ->
   Forall (fun d => os.statOk (files w) (filepath.Join [d; "Cargo.toml"]) = false)
          (ancestors (filepath.Dir (Handler input))) ->
   exists err,
     fs_FindUp X (files w) (Handler input) "Cargo.toml" = ("", Some err) /\
     Build X r input w = (None, Some err, r, w)).
Proof.
  split; [intros p err; apply Build_not_found|].
  intros HX Hnone. exists "file not found".
  assert (fs_FindUp X (files w) (Handler input) "Cargo.toml"
          = ("", Some "file not found")) as H.
  { rewrite HX. unfold FindUp. now apply findUpLoop_none. }
  split; [exact H | now apply (Build_not_found X r input w "")].
Qed.

Lemma Build_no_manifest_witness :
  exists err,
    FindUp demo.bare "/p/src/main.rs" "Cargo.toml" = ("", Some err) /\
    Build demo.X New demo.input (demo.world demo.bare)
    = (None, Some err, New, demo.world demo.bare).
Proof.
  apply (proj2 (Build_no_manifest demo.X New demo.input (demo.world demo.bare))
           eq_refl).
  vm_compute. repeat constructor.
Defined.

(** ** [Run] *)

(** C9: [Run] starts the built artifact, the handler file in the build's
    output directory, as a child whose working directory is that directory
    and whose environment is the caller's with the one entry
    [AWS_LAMBDA_RUNTIME_API=<server>] added at the end; standard output and
    standard error are connected to two different pipes before the start,
    and the worker is handed back after the start alone, with no error. *)
Theorem Run_starts_child r input w :
  let exe := filepath.Join [Out (RunBuild input); Handler_ (RunBuild input)] in
  let c :=
    {| Path := exe; Args := [exe];
       Env := RunEnv input ++ ["AWS_LAMBDA_RUNTIME_API=" +:+ Server input];
       Dir := Out (RunBuild input);
       Stdout := Some (nextPipe w); Stderr := Some (S (nextPipe w)) |} in
  Run r input w =
    (Some {| stdout := Some (nextPipe w); stderr := Some (S (nextPipe w));
             cmd := c |},
     None,
     {| files := files w; cwd := cwd w; environ := environ w;
        nextPipe := S (S (nextPipe w)); events := events w ++ [EvStart c] |})
  /\ Stdout c <> Stderr c.
Proof. split; [reflexivity | cbn; intros [= H]; lia]. Qed.

(** ** [FindClosestCargoConfig] *)

Lemma findClosestLoop_walk n fs dir :
  findClosestLoop n fs dir = firstConfig fs (walk n dir).
Proof.
  revert dir. induction n as [|n IH]; intros dir; [reflexivity|].
  cbn [findClosestLoop walk firstConfig].
  destruct (cargoConfigIn fs dir); [reflexivity|].
  destruct (String.eqb (filepath.Dir dir) dir); [reflexivity | apply IH].
Qed.

Lemma firstConfig_spec fs dirs :
  match firstConfig fs dirs with
  | Some f =>
      exists before d after,
        dirs = before ++ d :: after /\
        Forall (fun d' => cargoConfigIn fs d' = None) before /\
        cargoConfigIn fs d = Some f
  | None => Forall (fun d => cargoConfigIn fs d = None) dirs
  end.
Proof.
  induction dirs as [|d dirs IH]; cbn [firstConfig]; [constructor|].
  destruct (cargoConfigIn fs d) as [f|] eqn:E.
  - exists [], d, dirs. repeat split; [constructor | exact E].
  - destruct (firstConfig fs dirs) as [f|].
    + destruct IH as (before & d' & after & -> & Hb & Hd).
      exists (d :: before), d', after. repeat split; [now constructor | exact Hd].
    + now constructor.
Qed.

Lemma cargoConfigIn_spec fs dir f :
  cargoConfigIn fs dir = Some f <->
  os.statOk fs (filepath.Join [dir; ".cargo"]) = true /\
  (let inside name := filepath.Join [filepath.Join [dir; ".cargo"]; name] in
   (os.statOk fs (inside "config.toml") = true /\ f = inside "config.toml") \/
   (os.statOk fs (inside "config.toml") = false /\
    os.statOk fs (inside "config") = true /\ f = inside "config")).
Proof.
  unfold cargoConfigIn. cbv zeta.
  destruct (os.statOk fs (filepath.Join [dir; ".cargo"])).
  2:{ split; [discriminate | intros [? _]; discriminate]. }
  destruct (os.statOk fs (filepath.Join [_; "config.toml"])).
  { split; [intros [= <-]; auto | intros [_ [[_ ->] | [? _]]]; [reflexivity | discriminate]]. }
  destruct (os.statOk fs (filepath.Join [_; "config"])).
  { split; [intros [= <-]; auto | intros [_ [[? _] | (_ & _ & ->)]]; [discriminate | reflexivity]]. }
  split; [discriminate | intros [_ [[? _] | (_ & ? & _)]]; discriminate].
Qed.

(** C2, as the code has it: the search goes up from the starting directory
    and ends at the top whatever fuel it is given; it returns the file of
    the first directory on the way whose [.cargo] subdirectory holds
    [config.toml] or, failing that, [config]; directories without [.cargo],
    or with a [.cargo] that holds neither file, are passed over; when no
    directory up to the top has such a file, nothing is returned. *)
Theorem FindClosestCargoConfig_first_with_file fs startingPath :
  (forall n, String.length startingPath + 2 <= n ->
     findClosestLoop n fs startingPath = FindClosestCargoConfig fs startingPath) /\
  (exists up top, ancestors startingPath = up ++ [top] /\ filepath.Dir top = top) /\
  match FindClosestCargoConfig fs startingPath with
  | Some f =>
      exists before d after,
        ancestors startingPath = before ++ d :: after /\
        Forall (fun d' => cargoConfigIn fs d' = None) before /\
        cargoConfigIn fs d = Some f /\
        os.statOk fs (filepath.Join [d; ".cargo"]) = true /\
        (let inside name := filepath.Join [filepath.Join [d; ".cargo"]; name] in
         (os.statOk fs (inside "config.toml") = true /\ f = inside "config.toml") \/
         (os.statOk fs (inside "config.toml") = false /\
          os.statOk fs (inside "config") = true /\ f = inside "config"))
  | None => Forall (fun d => cargoConfigIn fs d = None) (ancestors startingPath)
  end.
Proof.
  split; [|split].
  - intros n Hn. unfold FindClosestCargoConfig.
    rewrite !findClosestLoop_walk. f_equal. now apply walk_fuel.
  - apply ancestors_top.
  - unfold FindClosestCargoConfig. rewrite findClosestLoop_walk.
    fold (ancestors startingPath).
    pose proof (firstConfig_spec fs (ancestors startingPath)) as H.
    destruct (firstConfig fs (ancestors startingPath)) as [f|]; [|exact H].
    destruct H as (before & d & after & E & Hb & Hd).
    exists before, d, after. repeat split; try assumption;
      apply cargoConfigIn_spec in Hd; tauto.
Qed.

(** C2 as worded fails: a [.cargo] directory with neither file inside does
    not end the search. Below [/a/b], whose [.cargo] is empty, the code goes
    on to [/a] and returns the file found there, where the wording stops at
    [/a/b] and has nothing to return. *)
Lemma FindClosestCargoConfig_passes_empty_cargo_dir :
  let fs : gmap string node :=
    {[ "/a/b/.cargo" := Directory;
       "/a/.cargo" := Directory;
       "/a/.cargo/config.toml" := File "" ]} in
  List.find (fun d => os.statOk fs (filepath.Join [d; ".cargo"])) (ancestors "/a/b")
    = Some "/a/b" /\
  spec_findConfigOverride fs "/a/b" = None /\
  FindClosestCargoConfig fs "/a/b" = Some "/a/.cargo/config.toml" /\
  FindClosestCargoConfig fs "/a/b" <> spec_findConfigOverride fs "/a/b".
Proof. vm_compute. repeat split; congruence. Qed.

(** ** [copyFile] *)

Lemma Stat_insert_ne fs p q x :
  p <> q -> os.Stat (<[q := x]> fs) p = os.Stat fs p.
Proof.
  intros H. unfold os.Stat.
  destruct (String.eqb p "/" || String.eqb p "."); [reflexivity|].
  now rewrite lookup_insert_ne.
Qed.

Lemma Stat_insert_dir fs q : os.Stat (<[q := Directory]> fs) q = Some Directory.
Proof.
  unfold os.Stat.
  destruct (String.eqb q "/" || String.eqb q "."); [reflexivity|].
  now rewrite lookup_insert_eq.
Qed.

Lemma Stat_lookup fs q :
  os.Stat fs q <> Some Directory -> forall fs', os.Stat fs' q = fs' !! q.
Proof.
  unfold os.Stat. intros H fs'.
  destruct (String.eqb q "/" || String.eqb q "."); [congruence | reflexivity].
Qed.

Lemma Stat_ext fs fs' q : fs' !! q = fs !! q -> os.Stat fs' q = os.Stat fs q.
Proof. unfold os.Stat. now intros ->. Qed.

Lemma dropTrailingSeps_length l : length (os.dropTrailingSeps l) <= length l.
Proof.
  induction l as [|c l IH]; [reflexivity|]. cbn.
  destruct (filepath.isSep c); cbn; lia.
Qed.

Lemma dropElem_length l : length (os.dropElem l) <= length l.
Proof.
  induction l as [|c l IH]; [reflexivity|]. cbn.
  destruct (filepath.isSep c); cbn; lia.
Qed.

Lemma strlen_of_list l : String.length (String.string_of_list_ascii l) = length l.
Proof. induction l as [|c l IH]; cbn; [reflexivity | now rewrite IH]. Qed.

Lemma length_to_list s : length (String.list_ascii_of_string s) = String.length s.
Proof. induction s as [|c s IH]; cbn; [reflexivity | now rewrite IH]. Qed.

Lemma mkdirParent_length path :
  String.length (os.mkdirParent path) <= String.length path.
Proof.
  unfold os.mkdirParent. rewrite strlen_of_list, length_rev.
  etransitivity; [apply dropElem_length|].
  etransitivity; [apply dropTrailingSeps_length|].
  now rewrite length_rev, length_to_list.
Qed.

(** [MkdirAll], when it succeeds, leaves a directory behind. *)
Lemma mkdirAll_ok n path fs fs1 :
  os.mkdirAll n path fs = (None, fs1) -> os.Stat fs1 path = Some Directory.
Proof.
  destruct n as [|n]; cbn [os.mkdirAll];
    destruct (os.Stat fs path) as [[c|]|] eqn:E; try discriminate;
    try (intros [= <-]; exact E).
  - intros [= <-]. apply Stat_insert_dir.
  - destruct (0 <? String.length (os.mkdirParent path)).
    + destruct (os.mkdirAll n _ fs) as [[e|] fs']; [discriminate|].
      intros [= <-]. apply Stat_insert_dir.
    + intros [= <-]. apply Stat_insert_dir.
Qed.

(** It never removes or replaces what exists. *)
Lemma mkdirAll_keeps n : forall path fs e fs1,
  os.mkdirAll n path fs = (e, fs1) ->
  forall p x, os.Stat fs p = Some x -> os.Stat fs1 p = Some x.
Proof.
  induction n as [|n IH]; intros path fs e fs1; cbn [os.mkdirAll];
    destruct (os.Stat fs path) as [[c|]|] eqn:E;
    try (intros [= <- <-]; auto; fail).
  - intros [= <- <-] p x Hp. rewrite Stat_insert_ne; [exact Hp | congruence].
  - destruct (0 <? String.length (os.mkdirParent path)).
    + destruct (os.mkdirAll n _ fs) as [[e'|] fs'] eqn:Hrec.
      * intros [= <- <-]. eapply IH; exact Hrec.
      * intros [= <- <-] p x Hp.
        assert (os.Stat fs' p = Some x) as Hp' by (eapply IH; eauto).
        destruct (decide (p = path)) as [->|Hne].
        -- assert (os.Stat fs' path = os.Stat fs path) as Hsame.
           { unfold os.Stat in *.
             destruct (String.eqb path "/" || String.eqb path "."); congruence. }
           congruence.
        -- now rewrite Stat_insert_ne.
    + intros [= <- <-] p x Hp. rewrite Stat_insert_ne; [exact Hp | congruence].
Qed.

(** It touches no name longer than the directory asked for. *)
Lemma mkdirAll_longer n : forall path fs e fs1,
  os.mkdirAll n path fs = (e, fs1) ->
  forall p, String.length path < String.length p -> fs1 !! p = fs !! p.
Proof.
  induction n as [|n IH]; intros path fs e fs1; cbn [os.mkdirAll];
    destruct (os.Stat fs path) as [[c|]|] eqn:E;
    try (intros [= <- <-]; auto; fail).
  - intros [= <- <-] p Hp. apply lookup_insert_ne. intros ->. lia.
  - pose proof (mkdirParent_length path) as Hlen.
    destruct (0 <? String.length (os.mkdirParent path)).
    + destruct (os.mkdirAll n _ fs) as [[e'|] fs'] eqn:Hrec.
      * intros [= <- <-] p Hp. eapply IH; [exact Hrec | lia].
      * intros [= <- <-] p Hp. rewrite lookup_insert_ne by (intros ->; lia).
        eapply IH; [exact Hrec | lia].
    + intros [= <- <-] p Hp. apply lookup_insert_ne. intros ->. lia.
Qed.

(** ** Fuel: the loops of [Rel] and [MkdirAll] get all they can use *)

Lemma cut_length s : s <> "" -> String.length (filepath.cut s).2 < String.length s.
Proof.
  induction s as [|c r IH]; [congruence|intros _].
  cbn [filepath.cut]. destruct (filepath.isSep c); [cbn; lia|].
  destruct r as [|c' r']; [cbn; lia|].
  specialize (IH ltac:(congruence)).
  destruct (filepath.cut (String c' r')) as [e rest]. cbn in *. lia.
Qed.

Lemma relLoop_fuel n : forall m base targ,
  String.length base < n -> String.length base < m ->
  filepath.relLoop n base targ = filepath.relLoop m base targ.
Proof.
  induction n as [|n IH]; intros m base targ Hn Hm; [lia|].
  destruct m as [|m]; [lia|]. cbn [filepath.relLoop].
  destruct (String.eqb base "") eqn:Eb; [reflexivity|].
  destruct (String.eqb targ ""); [reflexivity|]. cbn [orb].
  apply String.eqb_neq in Eb. pose proof (cut_length base Eb) as Hlt.
  destruct (filepath.cut base) as [be b']. destruct (filepath.cut targ) as [te t'].
  destruct (String.eqb be te); [|reflexivity].
  cbn in Hlt. apply IH; lia.
Qed.

Lemma dropElem_lt l : l <> [] -> length (os.dropElem l) < length l.
Proof.
  intros H. destruct l as [|c l]; [congruence|]. cbn.
  destruct (filepath.isSep c); [lia|].
  pose proof (dropElem_length l). lia.
Qed.

Lemma mkdirParent_lt path :
  path <> "" -> String.length (os.mkdirParent path) < String.length path.
Proof.
  intros H. unfold os.mkdirParent. rewrite strlen_of_list, length_rev.
  assert (0 < String.length path) by (destruct path; [congruence | cbn; lia]).
  pose proof (dropTrailingSeps_length (rev (String.list_ascii_of_string path))) as Hd.
  rewrite length_rev, length_to_list in Hd.
  destruct (os.dropTrailingSeps _) as [|c l] eqn:E; [cbn; lia|].
  pose proof (dropElem_lt (c :: l) ltac:(congruence)). lia.
Qed.

Lemma mkdirAll_fuel n : forall m path fs,
  String.length path <= n -> String.length path <= m ->
  os.mkdirAll n path fs = os.mkdirAll m path fs.
Proof.
  induction n as [|n IH]; intros m path fs Hn Hm.
  - destruct path; [|cbn in Hn; lia]. destruct m; reflexivity.
  - destruct m as [|m].
    + destruct path; [|cbn in Hm; lia]. reflexivity.
    + cbn [os.mkdirAll]. destruct (os.Stat fs path) as [[c|]|]; try reflexivity.
      destruct (0 <? String.length (os.mkdirParent path)) eqn:E; [|reflexivity].
      assert (path <> "") by (intros ->; discriminate).
      pose proof (mkdirParent_lt path ltac:(assumption)).
      rewrite (IH m) by lia. reflexivity.
Qed.

(** Creating the directory of [dst] leaves [dst] itself as it was. *)
Lemma MkdirAll_Dir_keeps_name dst fs e fs1 :
  os.MkdirAll (filepath.Dir dst) fs = (e, fs1) ->
  os.Stat fs1 dst = os.Stat fs dst.
Proof.
  unfold os.MkdirAll. intros H.
  destruct (Dir_cases dst) as [D | [D | D]].
  - rewrite D in H. destruct (String.length "/"); cbn in H; now inversion H.
  - rewrite D in H. destruct (String.length "."); cbn in H; now inversion H.
  - apply Stat_ext. eapply mkdirAll_longer; [exact H | exact D].
Qed.

(** When the source is a regular file, the destination's directory can be
    made and the destination is another name that is not a directory,
    [copyFile] succeeds: the destination holds the source's bytes, the
    source still does, the destination's directory exists, the file has
    been synced, and nothing that existed under another name is lost. *)
Lemma copyFile_copies src dst w content :
  os.Stat (files w) src = Some (File content) ->
  src <> dst ->
  (os.MkdirAll (filepath.Dir dst) (files w)).1 = None ->
  os.Stat (files w) dst <> Some Directory ->
  let w2 := (copyFile src dst w).2 in
  (copyFile src dst w).1 = None /\
  os.Stat (files w2) dst = Some (File content) /\
  os.Stat (files w2) src = Some (File content) /\
  os.Stat (files w2) (filepath.Dir dst) = Some Directory /\
  events w2 = events w ++ [EvSync dst] /\
  (forall p x, p <> dst -> os.Stat (files w) p = Some x ->
               os.Stat (files w2) p = Some x).
Proof.
  intros Hsrc Hne Hmk Hdst. unfold copyFile, os.Open. rewrite Hsrc.
  destruct (os.MkdirAll (filepath.Dir dst) (files w)) as [e fs1] eqn:Emk.
  cbn in Hmk. subst e.
  pose proof (mkdirAll_ok _ _ _ _ Emk) as Hdir.
  pose proof (mkdirAll_keeps _ _ _ _ _ Emk) as Hkeep.
  pose proof (MkdirAll_Dir_keeps_name _ _ _ _ Emk) as Hsame.
  assert (Hd1 : os.Stat fs1 dst <> Some Directory) by congruence.
  assert (Hdd : filepath.Dir dst <> dst).
  { intros E. rewrite E in Hdir. congruence. }
  unfold os.Create. rewrite Hdir.
  destruct (os.Stat fs1 dst) as [[c|]|] eqn:Ed; [| congruence |];
    rewrite (Stat_insert_ne _ src dst) by exact Hne;
    rewrite (Hkeep _ _ Hsrc); cbn [fst snd files emit setFiles events];
    (repeat split;
     [ rewrite (Stat_lookup _ _ Hdst); apply lookup_insert_eq
     | rewrite !Stat_insert_ne by exact Hne; now apply Hkeep
     | rewrite !Stat_insert_ne by exact Hdd; exact Hdir
     | ]).
  - intros p x Hp Hx. rewrite !Stat_insert_ne by exact Hp. now apply Hkeep.
  - intros p x Hp Hx. rewrite !Stat_insert_ne by exact Hp. now apply Hkeep.
Qed.

(** ** [Build], after the command *)

Lemma copyFile_cwd src dst w : cwd (copyFile src dst w).2 = cwd w.
Proof.
  unfold copyFile.
  destruct (os.Open src (files w)); [reflexivity|].
  destruct (os.MkdirAll _ _) as [[e|] fs1]; [reflexivity|].
  destruct (os.Create dst fs1) as [[e|] fs2]; [reflexivity|].
  destruct (os.Stat fs2 src) as [[c|]|]; reflexivity.
Qed.

(** C5, as the code has it by design: after a successful command [Build]
    looks for the artifact at [<targetDir>/lambda/<artifact>/bootstrap].
    With no override directory, [targetDir] is [<root>/target]; with an
    override file in the project root's own [.cargo] that gives a relative
    [target-dir], it is that directory under the project root. (Where the
    override file lies further up, or gives an absolute directory, nothing
    is said here.) [Build] records the absolute form of the project root
    under the function's identifier and returns the handler ["bootstrap"],
    no source maps, no errors and the requested output directory, whether or
    not the copy can be made. When the artifact is a regular file, the
    destination's directory can be made and the destination is another name
    that is not a directory, [<out>/bootstrap] ends up with the artifact's
    bytes, its directory exists and the file has been synced. *)
Theorem Build_command_success X r input w cargoTomlFile fs' output targetDir :
  fs_FindUp X (files w) (Handler input) "Cargo.toml" = (cargoTomlFile, None) ->
  cmd_CombinedOutput X (buildCmd X input w cargoTomlFile) (files w)
    = (fs', output, None) ->
  let root := filepath.Dir cargoTomlFile in
  ((overrideOf X w root = None /\ targetDir = filepath.Join [root; "target"]) \/
   (exists f d,
      cargoConfigIn (files w) root = Some f /\
      overrideOf X w root = Some d /\
      filepath.IsAbs d = false /\
      targetDir = filepath.Join [root; d])) ->
  let src :=
    filepath.Join [targetDir; "lambda"; artifactName (Handler input); "bootstrap"] in
  let dst := filepath.Join [Out_ input; "bootstrap"] in
  let recorded :=
    if filepath.IsAbs root then filepath.Clean root
    else match cwd w with
         | Some wd => filepath.Join [wd; root]
         | None => ""
         end in
  exists w2,
    Build X r input w =
      (Some {| Out := Out_ input; Handler_ := "bootstrap"; Errors := Some [];
               Sourcemaps := Some [] |},
       None,
       {| directories := <[FunctionID input := recorded]> (directories r) |},
       w2) /\
    forall content,
      os.Stat fs' src = Some (File content) ->
      src <> dst ->
      (os.MkdirAll (filepath.Dir dst) fs').1 = None ->
      os.Stat fs' dst <> Some Directory ->
      os.Stat (files w2) dst = Some (File content) /\
      os.Stat (files w2) src = Some (File content) /\
      os.Stat (files w2) (filepath.Dir dst) = Some Directory /\
      events w2 =
        events w ++ [EvCombinedOutput (buildCmd X input w cargoTomlFile);
                     EvSync dst].
Proof.
  intros Hfind Hrun root Htarget src dst recorded.
  assert (Hsrc : artifactPath (rootOf cargoTomlFile)
                   (overrideOf X w (rootOf cargoTomlFile))
                   (artifactName (Handler input)) = src).
  { unfold artifactPath, rootOf. fold root. subst src.
    destruct Htarget as [[-> ->] | (f & d & _ & -> & _ & ->)]; reflexivity. }
  rewrite (Build_found X r input w cargoTomlFile Hfind). cbv zeta.
  rewrite Hrun, Hsrc.
  set (w1 := emit _ (setFiles fs' w)).
  change (filepath.Join [Out_ input; "bootstrap"]) with dst.
  exists (copyFile src dst w1).2. split.
  - do 3 f_equal. unfold os.Abs, rootOf. rewrite copyFile_cwd.
    subst recorded. fold root.
    destruct (filepath.IsAbs root); [reflexivity|].
    change (cwd w1) with (cwd w). destruct (cwd w); reflexivity.
  - intros content Hsrc' Hne Hmk Hdst.
    destruct (copyFile_copies src dst w1 content Hsrc' Hne Hmk Hdst)
      as (_ & H1 & H2 & H3 & H4 & _).
    repeat split; try assumption.
    rewrite H4. cbn [events w1 emit setFiles]. now rewrite <- app_assoc.
Qed.

Lemma Build_command_success_witness :
  exists w2,
    Build demo.X New demo.input (demo.world demo.tree) =
      (Some {| Out := "/art/fn"; Handler_ := "bootstrap"; Errors := Some [];
               Sourcemaps := Some [] |},
       None, {| directories := <["fn" := "/p"]> ∅ |}, w2) /\
    os.Stat (files w2) "/art/fn/bootstrap" = Some (File "ELF") /\
    os.Stat (files w2) "/p/out/lambda/main/bootstrap" = Some (File "ELF") /\
    os.Stat (files w2) "/art/fn" = Some Directory.
Proof.
  destruct (Build_command_success demo.X New demo.input (demo.world demo.tree)
              "/p/Cargo.toml"
              (<["/p/out/lambda/main/bootstrap" := File "ELF"]> demo.tree)
              "Finished" "/p/out"
              ltac:(vm_compute; reflexivity) ltac:(vm_compute; reflexivity)
              ltac:(right; exists "/p/.cargo/config.toml", "out";
                    vm_compute; repeat split; reflexivity))
    as (w2 & HB & Hcopy).
  exists w2. split; [exact HB|].
  destruct (Hcopy "ELF") as (H1 & H2 & H3 & _);
    [vm_compute; reflexivity | vm_compute; congruence
    | vm_compute; reflexivity | vm_compute; congruence |].
  repeat split; assumption.
Defined.

(** C5 as worded fails where the copy cannot be made. With a regular file
    in the way of the output directory, the command succeeds and leaves the
    artifact at the expected path, the destination's directory cannot be
    created and nothing is copied or synced; and when the command succeeds
    without leaving an artifact there is nothing to copy. Either way [Build]
    returns the successful result and records the root. *)
Lemma Build_succeeds_without_copy :
  (let w := demo.world demo.blocked in
   let '(out, err, r', w') := Build demo.X New demo.input w in
   out = Some (successfulBuild "/art/fn") /\ err = None /\
   directories r' !! "fn" = Some "/p" /\
   os.Stat (files w') "/p/out/lambda/main/bootstrap" = Some (File "ELF") /\
   os.Stat (files w') "/art/fn/bootstrap" = None /\
   os.Stat (files w') "/art/fn" = None /\
   events w' = [EvCombinedOutput (buildCmd demo.X demo.input w "/p/Cargo.toml")]) /\
  (let w := demo.world demo.quiet in
   let '(out, err, r', w') := Build demo.X New demo.input w in
   out = Some (successfulBuild "/art/fn") /\ err = None /\
   directories r' !! "fn" = Some "/p" /\
   files w' = demo.quiet /\
   os.Stat (files w') "/p/out/lambda/main/bootstrap" = None /\
   os.Stat (files w') "/art/fn/bootstrap" = None).
Proof. vm_compute. repeat split; congruence. Qed.

(** C7: no decoder can make [Build] fail. Once the manifest is located the
    call returns a result and no error value, and the result's error list
    holds the command's output or nothing, whatever the decoders reported;
    the errors they return have no effect at all, [Build] goes on with what
    each decoder left in its destination. A decoder that rejects its input,
    returning an error and leaving the destination as it was, therefore
    gives the defaults: rejected properties, no [--arm64]; a rejected
    manifest, no [--features]; a rejected override, the artifact is looked
    for under [<root>/target]. *)
Theorem Build_tolerates_malformed X r input w cargoTomlFile :
  fs_FindUp X (files w) (Handler input) "Cargo.toml" = (cargoTomlFile, None) ->
  let root := filepath.Dir cargoTomlFile in
  let name := artifactName (Handler input) in
  let c := buildCmd X input w cargoTomlFile in
  let head := ["cargo"; "lambda"; "build"; "--bin"; name]
              ++ (if Dev input then [] else ["--release"]) in
  (exists out r' w' rest,
     Build X r input w = (Some out, None, r', w') /\
     events w' = events w ++ EvCombinedOutput c :: rest /\
     match cmd_CombinedOutput X c (files w) with
     | (_, output, Some _) => Errors out = Some [output]
     | (_, _, None) => Errors out = Some []
     end) /\
  Build X r input w = Build (silenced X) r input w /\
  (forall e,
     (forall dest, json_Unmarshal X (Properties_ input) dest = (dest, Some e)) ->
     Args c = head ++ ["--no-default-features"]
              ++ match featuresOf (manifestOf X w cargoTomlFile) name with
                 | [] => []
                 | fs => ["--features"; String.concat "," fs]
                 end) /\
  (forall e,
     (forall dest,
        toml_DecodeCargoToml X (files w) cargoTomlFile dest = (dest, Some e)) ->
     Args c = head
              ++ (if String.eqb (Architecture (propertiesOf X input)) "arm_64"
                  then ["--arm64"] else [])
              ++ ["--no-default-features"]) /\
  (forall f e fs' output,
     FindClosestCargoConfig (files w) root = Some f ->
     (forall dest, toml_DecodeCargoConfig X (files w) f dest = (dest, Some e)) ->
     cmd_CombinedOutput X c (files w) = (fs', output, None) ->
     (Build X r input w).2 =
       (copyFile
          (filepath.Join [filepath.Join [root; "target"]; "lambda"; name;
                          "bootstrap"])
          (filepath.Join [Out_ input; "bootstrap"])
          (emit (EvCombinedOutput c) (setFiles fs' w))).2).
Proof.
  intros Hfind root name c head.
  pose proof (Build_found X r input w cargoTomlFile Hfind) as HB.
  cbv zeta in HB. fold c in HB.
  split; [|split; [|split; [|split]]].
  - rewrite HB.
    destruct (cmd_CombinedOutput X c (files w)) as [[fs' output] [e|]].
    + do 3 eexists. exists []. repeat split.
    + match goal with |- context [copyFile ?s ?d ?w1] =>
        destruct (copyFile_events s d w1) as [E|E] end.
      * do 3 eexists. exists []. split; [reflexivity|]. rewrite E. now split.
      * do 3 eexists. eexists. split; [reflexivity|]. rewrite E.
        cbn [events emit setFiles]. rewrite <- app_assoc. now split.
  - reflexivity.
  - intros e He. subst c head. unfold buildCmd, commandLine, propertiesOf.
    rewrite He. cbn [Args fst Architecture]. fold name.
    rewrite <- !app_assoc. do 2 f_equal.
    destruct (featuresOf _ name); reflexivity.
  - intros e He. subst c head. unfold buildCmd, commandLine, manifestOf, featuresOf.
    rewrite He. cbn [Args fst Bin List.find]. fold name.
    rewrite <- !app_assoc. reflexivity.
  - intros f e fs' output Hf He Hrun. rewrite HB, Hrun. cbn [snd].
    unfold overrideOf, rootOf. fold root. rewrite Hf, He. reflexivity.
Qed.

Lemma Build_tolerates_malformed_witness :
  exists out r' w',
    Build demo.X New demo.garbledInput (demo.world demo.garbled)
      = (Some out, None, r', w') /\
    Errors out = Some [] /\
    Args (buildCmd demo.X demo.garbledInput (demo.world demo.garbled)
            "/p/Cargo.toml")
      = ["cargo"; "lambda"; "build"; "--bin"; "main"; "--release";
         "--no-default-features"].
Proof.
  destruct (Build_tolerates_malformed demo.X New demo.garbledInput
              (demo.world demo.garbled) "/p/Cargo.toml"
              ltac:(vm_compute; reflexivity))
    as ((out & r' & w' & rest & HB & _ & Herr) & _ & _ & Hman & _).
  exists out, r', w'. split; [exact HB|]. split.
  - exact Herr.
  - exact (Hman "toml: expected key" ltac:(intros dest; vm_compute; reflexivity)).
Defined.

(** C7 as worded fails for a decoder that reports its error after it has
    stored something. The properties give [arm_64] before the ill-typed
    value and the manifest gives the features of [main] before the
    ill-typed table: both decoders return an error, and [Build] runs the
    command with [--arm64] and [--features a] and returns the successful
    result. *)
Lemma Build_keeps_partial_decode :
  let w := demo.world demo.retyped in
  let c := buildCmd demo.partial demo.retypedInput w "/p/Cargo.toml" in
  (json_Unmarshal demo.partial (Properties_ demo.retypedInput)
                  zeroProperties).2 <> None /\
  (toml_DecodeCargoToml demo.partial (files w) "/p/Cargo.toml"
                        zeroCargoToml).2 <> None /\
  Args c = ["cargo"; "lambda"; "build"; "--bin"; "main"; "--release";
            "--arm64"; "--no-default-features"; "--features"; "a"] /\
  (let '(out, err, r', w') := Build demo.partial New demo.retypedInput w in
   out = Some (successfulBuild "/art/fn") /\ err = None /\
   events w' = [EvCombinedOutput c; EvSync "/art/fn/bootstrap"]).
Proof. vm_compute. repeat split; congruence. Qed.

(** ** [Worker.Logs] *)

Lemma merge_left_only a : merge a [] a.
Proof. induction a; constructor; assumption. Qed.

Lemma merge_right_only b : merge [] b b.
Proof. induction b; constructor; assumption. Qed.

Lemma merge_app_left a b m x : merge a b m -> merge (a ++ x) b (m ++ x).
Proof.
  induction 1; cbn; try (constructor; assumption). apply merge_left_only.
Qed.

Lemma merge_app_right a b m x : merge a b m -> merge a (b ++ x) (m ++ x).
Proof.
  induction 1; cbn; try (constructor; assumption). apply merge_right_only.
Qed.

Lemma merge_length a b m : merge a b m -> length m = length a + length b.
Proof. induction 1; cbn; lia. Qed.

Lemma copierStep_work c written done_ c' :
  copierStep c written done_ c' -> copierWork c' < copierWork c.
Proof.
  destruct 1 as [chunk rest Hne | rest chunk |]; unfold copierWork; cbn [src pc].
  - rewrite length_app. destruct chunk; [congruence | cbn; lia].
  - lia.
  - lia.
Qed.

Lemma logsStep_work s s' : logsStep s s' -> logsWork s' < logsWork s.
Proof.
  destruct 1 as [c c' e w d m written done_ H | c e e' w d m written done_ H | c e m];
    unfold logsWork; cbn [outCopier errCopier writerClosed];
    try apply copierStep_work in H; lia.
Qed.

Lemma copierStep_inv stream passed c written done_ c' :
  copierStep c written done_ c' ->
  stream = passed ++ inHand c ++ src c ->
  (pc c = Returned -> src c = []) ->
  stream = (passed ++ written) ++ inHand c' ++ src c' /\
  (pc c' = Returned -> src c' = []) /\
  running c = running c' + done_.
Proof.
  destruct 1 as [chunk rest Hne | rest chunk |]; unfold inHand, running;
    cbn [src pc]; intros -> Hret; repeat split; try reflexivity; try discriminate.
  - now rewrite app_nil_r.
  - now rewrite <- app_assoc.
  - now rewrite !app_nil_r.
Qed.

Lemma logsInv_step out err s s' :
  logsInv out err s -> logsStep s s' -> logsInv out err s'.
Proof.
  intros (po & pe & Ho & He & Hm & Hro & Hre & Hwg & Hcl) Hstep.
  destruct Hstep as
    [c c' e w d m written done_ H | c e e' w d m written done_ H | c e m];
    cbn [outCopier errCopier wg writerClosed merged] in *.
  - destruct (copierStep_inv out po c written done_ c' H Ho Hro) as (Ho' & Hro' & Hrun).
    exists (po ++ written), pe. cbn [outCopier errCopier wg writerClosed merged].
    repeat split; try assumption.
    + now apply merge_app_left.
    + lia.
    + intros Hd. specialize (Hcl Hd). lia.
  - destruct (copierStep_inv err pe e written done_ e' H He Hre) as (He' & Hre' & Hrun).
    exists po, (pe ++ written). cbn [outCopier errCopier wg writerClosed merged].
    repeat split; try assumption.
    + now apply merge_app_right.
    + lia.
    + intros Hd. specialize (Hcl Hd). lia.
  - exists po, pe. cbn [outCopier errCopier wg writerClosed merged].
    repeat split; assumption.
Qed.

Lemma logsInv_run out err s :
  logsRun (Logs out err) s -> logsInv out err s.
Proof.
  remember (Logs out err) as s0 eqn:E. induction 1 as [s|s1 s2 s3 _ IH Hstep].
  - subst s. exists [], []. cbn. repeat split; try constructor; discriminate.
  - eapply logsInv_step; [apply IH; exact E | exact Hstep].
Qed.

Lemma logsRun_cons s1 s2 s3 : logsStep s1 s2 -> logsRun s2 s3 -> logsRun s1 s3.
Proof.
  intros H12 H23. induction H23 as [s|s2 s3 s4 _ IH H34].
  - eapply run_step; [apply run_refl | exact H12].
  - eapply run_step; [apply IH; exact H12 | exact H34].
Qed.

(** A copier that has not returned can take a step. *)
Lemma copier_can_step c :
  pc c <> Returned -> exists written done_ c', copierStep c written done_ c'.
Proof.
  destruct c as [s [|chunk|]]; cbn; intros H; [| |congruence].
  - destruct s as [|x rest].
    + do 3 eexists. apply copy_eof.
    + do 3 eexists. apply (copy_read [x] rest). congruence.
  - do 3 eexists. apply copy_write.
Qed.

Lemma logs_progress out err s :
  logsInv out err s -> writerClosed s = false -> exists s', logsStep s s'.
Proof.
  intros (po & pe & Ho & He & Hm & Hro & Hre & Hwg & Hcl) Hopen.
  destruct s as [c e w d m]. cbn in *. subst d.
  assert (Hc : pc c = Returned \/ pc c <> Returned)
    by (destruct (pc c); [right | right | left]; congruence).
  assert (Hr : pc e = Returned \/ pc e <> Returned)
    by (destruct (pc e); [right | right | left]; congruence).
  destruct Hc as [Hc|Hc]; [destruct Hr as [Hr|Hr]|].
  - assert (w = 0) as ->
      by (unfold running in Hwg; rewrite Hc, Hr in Hwg; exact Hwg).
    eexists. apply step_close.
  - destruct (copier_can_step e Hr) as (written & done_ & e' & H).
    eexists. apply (step_stderr c e e' w false m written done_ H).
  - destruct (copier_can_step c Hc) as (written & done_ & c' & H).
    eexists. apply (step_stdout c c' e w false m written done_ H).
Qed.

Lemma logs_closed out err s :
  logsInv out err s -> writerClosed s = true ->
  pc (outCopier s) = Returned /\ pc (errCopier s) = Returned /\
  src (outCopier s) = [] /\ src (errCopier s) = [] /\
  merge out err (merged s) /\
  length (merged s) = length out + length err /\
  (forall s', ~ logsStep s s').
Proof.
  intros (po & pe & Ho & He & Hm & Hro & Hre & Hwg & Hcl) Hclosed.
  specialize (Hcl Hclosed). rewrite Hcl in Hwg.
  assert (Hc : pc (outCopier s) = Returned).
  { unfold running in Hwg. destruct (pc (outCopier s)); [lia | lia | reflexivity]. }
  assert (Hr : pc (errCopier s) = Returned).
  { unfold running in Hwg. destruct (pc (errCopier s)); [lia | lia | reflexivity]. }
  specialize (Hro Hc). specialize (Hre Hr).
  unfold inHand in Ho, He. rewrite Hc, Hro in Ho. rewrite Hr, Hre in He.
  cbn in Ho, He. rewrite app_nil_r in Ho, He. subst po pe.
  repeat split; try assumption.
  - now apply merge_length.
  - intros s' Hstep. destruct Hstep as
      [c c' e w d m written done_ H | c e e' w d m written done_ H | c e m];
      cbn in *; try discriminate.
    + destruct H; discriminate.
    + destruct H; discriminate.
Qed.

Lemma logsRun_trans s1 s2 s3 : logsRun s1 s2 -> logsRun s2 s3 -> logsRun s1 s3.
Proof.
  intros H12 H23. induction H23 as [s|s2 s3 s4 _ IH H34]; [exact H12|].
  eapply run_step; [apply IH; exact H12 | exact H34].
Qed.

(** From any state of a run, the writer gets closed after finitely many
    steps, whichever goroutine moves when. *)
Lemma logs_reaches_close out err : forall n s,
  logsWork s <= n -> logsInv out err s ->
  exists s', logsRun s s' /\ writerClosed s' = true.
Proof.
  induction n as [|n IH]; intros s Hn Hinv;
    destruct (writerClosed s) eqn:Hd; try (exists s; split; [apply run_refl | exact Hd]).
  - destruct (logs_progress out err s Hinv Hd) as [s1 H1].
    apply logsStep_work in H1. lia.
  - destruct (logs_progress out err s Hinv Hd) as [s1 H1].
    pose proof (logsStep_work _ _ H1) as Hlt.
    destruct (IH s1 ltac:(lia) (logsInv_step _ _ _ _ Hinv H1)) as (s' & Hrun & Hc).
    exists s'. split; [|exact Hc].
    eapply logsRun_cons; eassumption.
Qed.

(** C8: in every state a run of [Logs] can reach, what has come out of the
    merged stream interleaves a prefix of the child's standard output with a
    prefix of its standard error, byte for byte and in order. Until the
    writer is closed some goroutine can always move, and every move uses up
    work, so the run goes on to the close; the writer is closed only after
    both copiers have returned, each at the end of its stream, and then the
    merged stream has delivered exactly the [N + M] bytes of the two streams
    and nothing moves any more. *)
Theorem Logs_fan_in out err s :
  logsRun (Logs out err) s ->
  (exists po pe, merge po pe (merged s) /\
     (exists ro, out = po ++ ro) /\ (exists re, err = pe ++ re)) /\
  (writerClosed s = false -> exists s', logsStep s s') /\
  (forall s', logsStep s s' -> logsWork s' < logsWork s) /\
  (exists s', logsRun s s' /\ writerClosed s' = true /\
     length (merged s') = length out + length err) /\
  (writerClosed s = true ->
     pc (outCopier s) = Returned /\ pc (errCopier s) = Returned /\
     src (outCopier s) = [] /\ src (errCopier s) = [] /\
     merge out err (merged s) /\
     length (merged s) = length out + length err /\
     (forall s', ~ logsStep s s')).
Proof.
  intros Hrun. pose proof (logsInv_run _ _ _ Hrun) as Hinv.
  split; [|split; [|split; [|split]]].
  - destruct Hinv as (po & pe & Ho & He & Hm & _).
    exists po, pe. split; [exact Hm|]. split; eexists; eassumption.
  - now apply (logs_progress out err).
  - intros s'. apply logsStep_work.
  - destruct (logs_reaches_close out err (logsWork s) s (le_n _) Hinv)
      as (s' & Hss' & Hc).
    exists s'. split; [exact Hss'|]. split; [exact Hc|].
    apply (logs_closed out err s'); [|exact Hc].
    apply logsInv_run. eapply logsRun_trans; eassumption.
  - now apply (logs_closed out err).
Qed.

Lemma demo_run : logsRun (Logs demo.childStdout demo.childStderr) demo.drained.
Proof.
  eapply logsRun_cons;
    [apply (step_stdout _ _ _ _ _ _ _ _ (copy_read [Byte.x6f] [Byte.x6b] ltac:(congruence)))|].
  eapply logsRun_cons; [apply (step_stdout _ _ _ _ _ _ _ _ (copy_write _ _))|].
  eapply logsRun_cons;
    [apply (step_stderr _ _ _ _ _ _ _ _ (copy_read [Byte.x65] [] ltac:(congruence)))|].
  eapply logsRun_cons; [apply (step_stderr _ _ _ _ _ _ _ _ (copy_write _ _))|].
  eapply logsRun_cons;
    [apply (step_stdout _ _ _ _ _ _ _ _ (copy_read [Byte.x6b] [] ltac:(congruence)))|].
  eapply logsRun_cons; [apply (step_stdout _ _ _ _ _ _ _ _ (copy_write _ _))|].
  eapply logsRun_cons; [apply (step_stdout _ _ _ _ _ _ _ _ copy_eof)|].
  eapply logsRun_cons; [apply (step_stderr _ _ _ _ _ _ _ _ copy_eof)|].
  eapply logsRun_cons; [apply step_close|].
  apply run_refl.
Defined.

Lemma Logs_fan_in_witness :
  logsRun (Logs demo.childStdout demo.childStderr) demo.drained /\
  merge demo.childStdout demo.childStderr [Byte.x6f; Byte.x65; Byte.x6b] /\
  length (merged demo.drained) = 2 + 1.
Proof.
  split; [exact demo_run|].
  destruct (Logs_fan_in demo.childStdout demo.childStderr demo.drained demo_run)
    as (_ & _ & _ & _ & H).
  destruct (H eq_refl) as (_ & _ & _ & _ & Hm & Hl & _).
  split; [exact Hm | exact Hl].
Defined.

(** * Beyond the claims *)

(** ** Canonical paths under [Clean], [Dir] and [Rel] *)

Lemma isNormal_spec e :
  isNormal e = true ->
  e <> "" /\ hasSep e = false /\ e <> "." /\ e <> "..".
Proof.
  unfold isNormal. rewrite !andb_true_iff, !negb_true_iff, !String.eqb_neq.
  tauto.
Qed.

Lemma split_app_sep e s :
  hasSep e = false ->
  filepath.split (e +:+ String "/"%char s) = e :: filepath.split s.
Proof.
  induction e as [|c r IH]; intros H; [reflexivity|].
  cbn in H. apply orb_false_iff in H as [Hc Hr].
  change (String c r +:+ ?x) with (String c (r +:+ x)).
  cbn [filepath.split]. now rewrite Hc, IH.
Qed.

Lemma concat_cons2 e e' (l : list string) :
  String.concat "/" (e :: e' :: l)
  = e +:+ String "/"%char (String.concat "/" (e' :: l)).
Proof. reflexivity. Qed.

Lemma split_concat (elems : list string) :
  elems <> [] ->
  Forall (fun e => hasSep e = false) elems ->
  filepath.split (String.concat "/" elems) = elems.
Proof.
  induction elems as [|e [|e' l] IH]; intros Hne H; [congruence| |].
  - inversion H; subst. now apply split_noSep.
  - inversion H; subst. rewrite concat_cons2, split_app_sep by assumption.
    f_equal. apply IH; [congruence | assumption].
Qed.

Lemma fold_cleanStep_normal rooted (elems out : list string) :
  Forall (fun e => isNormal e = true) elems ->
  fold_left (filepath.cleanStep rooted) elems out = rev elems ++ out.
Proof.
  revert out. induction elems as [|e l IH]; intros out H; [reflexivity|].
  inversion H as [|? ? He Hl]; subst. cbn [fold_left rev].
  apply isNormal_spec in He as (H1 & _ & H2 & H3).
  apply String.eqb_neq in H1, H2, H3.
  unfold filepath.cleanStep at 2. rewrite H1, H2, H3.
  rewrite IH by assumption. now rewrite <- app_assoc.
Qed.

Lemma Forall_normal_noSep (elems : list string) :
  Forall (fun e => isNormal e = true) elems ->
  Forall (fun e => hasSep e = false) elems.
Proof.
  intros H. eapply Forall_impl; [exact H|].
  intros e He. now apply isNormal_spec in He.
Qed.

Lemma Clean_rooted x :
  filepath.Clean (String "/"%char x)
  = "/" +:+ String.concat "/"
              (rev (fold_left (filepath.cleanStep true) (filepath.split x) [])).
Proof.
  unfold filepath.Clean. cbn [String.eqb]. rewrite HasPrefix_sep.
  reflexivity.
Qed.

(** What [Clean] makes of a rooted path whose elements are normal but for
    empty ones at the end. *)
Lemma Clean_rooted_elems (elems : list string) tail :
  Forall (fun e => isNormal e = true) elems ->
  tail = [] \/ tail = [""] ->
  (elems <> [] \/ tail <> []) ->
  filepath.Clean ("/" +:+ String.concat "/" (elems ++ tail)) = absPath elems.
Proof.
  intros H Ht Hne.
  change ("/" +:+ ?x) with (String "/"%char x) at 1.
  rewrite Clean_rooted, split_concat.
  - rewrite fold_left_app, (fold_cleanStep_normal true elems []) by assumption.
    destruct Ht as [-> | ->]; cbn [fold_left];
      [|unfold filepath.cleanStep; cbn [String.eqb]];
      now rewrite app_nil_r, rev_involutive.
  - destruct elems, tail; cbn; try congruence. destruct Hne; congruence.
  - apply Forall_app. split; [now apply Forall_normal_noSep|].
    destruct Ht as [-> | ->]; repeat constructor.
Qed.

(** [Clean] leaves a canonical absolute path as it is. *)
Lemma Clean_absPath (elems : list string) :
  Forall (fun e => isNormal e = true) elems ->
  filepath.Clean (absPath elems) = absPath elems.
Proof.
  intros H. destruct elems as [|e l]; [reflexivity|].
  assert (E : filepath.Clean ("/" +:+ String.concat "/" ((e :: l) ++ []))
              = absPath (e :: l)).
  { apply Clean_rooted_elems; [exact H | now left | left; congruence]. }
  now rewrite app_nil_r in E.
Qed.

Lemma cut_noSep e : hasSep e = false -> filepath.cut e = (e, "").
Proof.
  induction e as [|c r IH]; intros H; [reflexivity|].
  cbn in H. apply orb_false_iff in H as [Hc Hr].
  cbn [filepath.cut]. now rewrite Hc, IH.
Qed.

Lemma cut_app_sep e s :
  hasSep e = false -> filepath.cut (e +:+ String "/"%char s) = (e, s).
Proof.
  induction e as [|c r IH]; intros H; [reflexivity|].
  cbn in H. apply orb_false_iff in H as [Hc Hr].
  change (String c r +:+ ?x) with (String c (r +:+ x)).
  cbn [filepath.cut]. now rewrite Hc, IH.
Qed.

Lemma cut_concat e (rest : list string) :
  hasSep e = false ->
  filepath.cut (String.concat "/" (e :: rest)) = (e, String.concat "/" rest).
Proof.
  intros H. destruct rest as [|e' l]; [now apply cut_noSep|].
  rewrite concat_cons2. now apply cut_app_sep.
Qed.

Lemma concat_normal_nonempty e (rest : list string) :
  isNormal e = true -> String.eqb (String.concat "/" (e :: rest)) "" = false.
Proof.
  intros H. apply isNormal_spec in H as (H & _). apply String.eqb_neq.
  destruct e as [|c r]; [congruence|].
  destruct rest; [cbn; congruence|]. rewrite concat_cons2. discriminate.
Qed.

Lemma concat_cons_length e (rest : list string) :
  isNormal e = true ->
  String.length (String.concat "/" rest)
  < String.length (String.concat "/" (e :: rest)).
Proof.
  intros H. apply isNormal_spec in H as (H & _).
  assert (0 < String.length e) by (destruct e; [congruence | cbn; lia]).
  destruct rest as [|e' l]; [cbn; lia|].
  rewrite concat_cons2, strlen_app. cbn [String.length]. lia.
Qed.

(** [relLoop] on two joined lists of normal elements is [strip]. *)
Lemma relLoop_strip (rs : list string) : forall (fs : list string) n,
  Forall (fun e => isNormal e = true) rs ->
  Forall (fun e => isNormal e = true) fs ->
  String.length (String.concat "/" rs) < n ->
  filepath.relLoop n (String.concat "/" rs) (String.concat "/" fs)
  = let '(be, rs', fs') := strip rs fs in
    (be, String.concat "/" rs', String.concat "/" fs').
Proof.
  induction rs as [|r rs IH]; intros fs n Hr Hf Hn.
  - destruct n; [cbn in Hn; lia|]. reflexivity.
  - destruct n as [|n]; [lia|]. inversion Hr as [|? ? Hr1 Hr2]; subst.
    cbn [filepath.relLoop strip]. rewrite (concat_normal_nonempty r rs Hr1).
    destruct fs as [|f fs]; [reflexivity|].
    inversion Hf as [|? ? Hf1 Hf2]; subst.
    rewrite (concat_normal_nonempty f fs Hf1). cbn [orb].
    rewrite !cut_concat
      by (match goal with H : isNormal _ = true |- _ =>
            now apply isNormal_spec in H end).
    destruct (String.eqb r f); [|reflexivity].
    apply IH; try assumption.
    pose proof (concat_cons_length r rs Hr1). lia.
Qed.

Lemma strip_base (rs fs : list string) :
  Forall (fun e => isNormal e = true) rs ->
  String.eqb (strip rs fs).1.1 ".." = false.
Proof.
  revert fs. induction rs as [|r rs IH]; intros fs H; [reflexivity|].
  inversion H as [|? ? H1 H2]; subst. destruct fs as [|f fs]; [reflexivity|].
  cbn [strip]. destruct (String.eqb r f); [now apply IH|].
  cbn. apply isNormal_spec in H1 as (_ & _ & _ & H1). now apply String.eqb_neq.
Qed.

Lemma strip_rest_normal (rs fs : list string) :
  Forall (fun e => isNormal e = true) rs ->
  Forall (fun e => isNormal e = true) fs ->
  Forall (fun e => isNormal e = true) (strip rs fs).1.2 /\
  Forall (fun e => isNormal e = true) (strip rs fs).2.
Proof.
  revert fs. induction rs as [|r rs IH]; intros fs Hr Hf; [now split|].
  destruct fs as [|f fs]; [now split|].
  cbn [strip]. destruct (String.eqb r f); [|now split].
  inversion Hr; inversion Hf; subst. now apply IH.
Qed.

(** [strip] leaves nothing of the base exactly when the base's elements
    lead the target's. *)
Lemma strip_dropPrefix (rs fs : list string) :
  match dropPrefix rs fs with
  | Some rest => strip rs fs = ("", [], rest) /\ fs = rs ++ rest
  | None => (strip rs fs).1.2 <> []
  end.
Proof.
  revert fs. induction rs as [|r rs IH]; intros fs; [now split|].
  destruct fs as [|f fs]; [cbn; congruence|].
  cbn [dropPrefix strip]. destruct (String.eqb r f) eqn:E; [|cbn; congruence].
  apply String.eqb_eq in E. subst f. specialize (IH fs).
  destruct (dropPrefix rs fs); [|exact IH].
  destruct IH as [-> ->]. now split.
Qed.

Lemma absPath_inj (rs fs : list string) :
  Forall (fun e => isNormal e = true) rs ->
  Forall (fun e => isNormal e = true) fs ->
  absPath fs = absPath rs -> fs = rs.
Proof.
  intros Hr Hf E. unfold absPath in E.
  change ("/" +:+ ?x) with (String "/"%char x) in E. injection E as E.
  destruct rs as [|r rs], fs as [|f fs]; [reflexivity | | |].
  - inversion Hf; subst.
    pose proof (concat_normal_nonempty f fs ltac:(assumption)) as N.
    apply String.eqb_neq in N. now rewrite E in N.
  - inversion Hr; subst.
    pose proof (concat_normal_nonempty r rs ltac:(assumption)) as N.
    apply String.eqb_neq in N. now rewrite <- E in N.
  - rewrite <- (split_concat (f :: fs)), <- (split_concat (r :: rs)), E;
      try congruence; try reflexivity; now apply Forall_normal_noSep.
Qed.

Lemma prefix_nil x : String.prefix "" x = true.
Proof. destruct x; reflexivity. Qed.

Lemma prefix_cons a s1 b s2 :
  String.prefix (String a s1) (String b s2)
  = if ascii_dec a b then String.prefix s1 s2 else false.
Proof. reflexivity. Qed.

Lemma HasPrefix_dotdot_app x : strings.HasPrefix (".." +:+ x) ".." = true.
Proof.
  unfold strings.HasPrefix.
  change (".." +:+ x) with (String "."%char (String "."%char x)).
  rewrite !prefix_cons.
  destruct (ascii_dec "."%char "."%char); [apply prefix_nil | congruence].
Qed.

(** Whether a joined path starts with two dots is decided by its first
    element, when that is not [.] itself. *)
Lemma HasPrefix_concat_normal next (more : list string) :
  isNormal next = true ->
  strings.HasPrefix (String.concat "/" (next :: more)) ".."
  = strings.HasPrefix next "..".
Proof.
  intros H. apply isNormal_spec in H as (H0 & _ & H1 & _).
  destruct more as [|e l]; [reflexivity|]. rewrite concat_cons2.
  unfold strings.HasPrefix.
  destruct next as [|a [|b u]]; [congruence| |].
  - change (String a "" +:+ ?x) with (String a x). rewrite !prefix_cons.
    destruct (ascii_dec "."%char a) as [<-|]; [congruence | reflexivity].
  - change (String a (String b u) +:+ ?x) with (String a (String b (u +:+ x))).
    rewrite !prefix_cons.
    destruct (ascii_dec "."%char a); [|reflexivity].
    destruct (ascii_dec "."%char b); [|reflexivity].
    now rewrite !prefix_nil.
Qed.

(** [Rel] between two canonical absolute paths. *)
Lemma Rel_absPath (rs fs : list string) :
  Forall (fun e => isNormal e = true) rs ->
  Forall (fun e => isNormal e = true) fs ->
  absPath fs <> absPath rs ->
  filepath.Rel (absPath rs) (absPath fs)
  = match strip rs fs with
    | (_, [], fs') => (String.concat "/" fs', None)
    | (_, rs', fs') =>
        (".." +:+ filepath.dotdots (strings.CountSep (String.concat "/" rs'))
           +:+ (if String.eqb (String.concat "/" fs') "" then ""
                else "/" +:+ String.concat "/" fs'), None)
    end.
Proof.
  intros Hr Hf Hne. unfold filepath.Rel.
  rewrite !Clean_absPath by assumption.
  apply String.eqb_neq in Hne. rewrite Hne.
  change (String.eqb (absPath rs) ".") with false. cbv iota.
  change (absPath rs) with (String "/"%char (String.concat "/" rs)).
  change (absPath fs) with (String "/"%char (String.concat "/" fs)).
  rewrite !HasPrefix_sep.
  cbn [filepath.isSep Ascii.eqb Bool.eqb eqb negb].
  cbn [filepath.relLoop String.eqb orb filepath.cut filepath.isSep Ascii.eqb Bool.eqb].
  cbn [String.length].
  rewrite relLoop_strip by (try assumption; lia).
  pose proof (strip_base rs fs Hr) as Hb.
  pose proof (strip_rest_normal rs fs Hr Hf) as [Hr' _].
  destruct (strip rs fs) as [[be rs'] fs']. cbn [fst snd] in Hb, Hr'.
  rewrite Hb. destruct rs' as [|r' rs'']; [reflexivity|].
  inversion Hr'; subst.
  now rewrite (concat_normal_nonempty r' rs'') by assumption.
Qed.

Lemma dropPrefix_refl (rs : list string) : dropPrefix rs rs = Some [].
Proof.
  induction rs as [|r rs IH]; [reflexivity|].
  cbn. now rewrite String.eqb_refl.
Qed.

(** ** [ShouldRebuild] on canonical paths *)

(** Whether [Rel] of two canonical absolute paths stays inside the first,
    as [ShouldRebuild] reads it off the result. *)
Lemma Rel_inside (rs fs : list string) :
  Forall (fun e => isNormal e = true) rs ->
  Forall (fun e => isNormal e = true) fs ->
  match filepath.Rel (absPath rs) (absPath fs) with
  | (_, Some err) => false
  | (rel, None) => negb (strings.HasPrefix rel "..")
  end
  = match dropPrefix rs fs with
    | Some [] => true
    | Some (next :: _) => negb (strings.HasPrefix next "..")
    | None => false
    end.
Proof.
  intros Hr Hf.
  destruct (String.eqb (absPath fs) (absPath rs)) eqn:E.
  - apply String.eqb_eq in E. pose proof (absPath_inj rs fs Hr Hf E) as ->.
    rewrite dropPrefix_refl. unfold filepath.Rel.
    now rewrite !Clean_absPath, String.eqb_refl by assumption.
  - apply String.eqb_neq in E. rewrite (Rel_absPath rs fs Hr Hf E).
    pose proof (strip_dropPrefix rs fs) as H.
    pose proof (strip_rest_normal rs fs Hr Hf) as [_ Hn].
    destruct (dropPrefix rs fs) as [rest|].
    + destruct H as [Hs ->]. rewrite Hs in *. cbn [snd] in Hn.
      destruct rest as [|next more].
      * rewrite app_nil_r in E. congruence.
      * inversion Hn; subst. now rewrite HasPrefix_concat_normal.
    + destruct (strip rs fs) as [[be rs'] fs']. cbn in H.
      destruct rs' as [|r' rs'']; [congruence|].
      now rewrite HasPrefix_dotdot_app.
Qed.

(** X1: with a canonical absolute root recorded for the function,
    [ShouldRebuild] on a canonical absolute file answers true exactly when
    the file has the suffix [.rs], the root's elements lead the file's, and
    the file's next element, if there is one, does not start with two dots.
    A file beside or above the root is refused; the root path itself is
    accepted exactly when it ends in [.rs]. *)
Theorem ShouldRebuild_canonical r functionID (rs fs : list string) :
  directories r !! functionID = Some (absPath rs) ->
  Forall (fun e => isNormal e = true) rs ->
  Forall (fun e => isNormal e = true) fs ->
  ShouldRebuild r functionID (absPath fs)
  = strings.HasSuffix (absPath fs) ".rs"
    && match dropPrefix rs fs with
       | Some [] => true
       | Some (next :: _) => negb (strings.HasPrefix next "..")
       | None => false
       end.
Proof.
  intros Hdir Hr Hf. unfold ShouldRebuild. rewrite Hdir.
  destruct (strings.HasSuffix (absPath fs) ".rs"); [|reflexivity].
  cbn [negb andb]. now apply Rel_inside.
Qed.

Lemma ShouldRebuild_canonical_witness :
  let r := {| directories := {[ "fn" := "/work/app" ]} |} in
  ShouldRebuild r "fn" "/work/app/src/main.rs" = true /\
  ShouldRebuild r "fn" "/work/app" = false /\
  ShouldRebuild r "fn" "/work/lib/util.rs" = false /\
  ShouldRebuild r "fn" "/work/app/..x/y.rs" = false /\
  ShouldRebuild {| directories := {[ "fn" := "/work/app.rs" ]} |}
                "fn" "/work/app.rs" = true.
Proof.
  intros r. refine (conj _ (conj _ (conj _ (conj _ _)))).
  - exact (ShouldRebuild_canonical r "fn" ["work"; "app"]
             ["work"; "app"; "src"; "main.rs"] eq_refl
             ltac:(repeat constructor) ltac:(repeat constructor)).
  - exact (ShouldRebuild_canonical r "fn" ["work"; "app"] ["work"; "app"]
             eq_refl ltac:(repeat constructor) ltac:(repeat constructor)).
  - exact (ShouldRebuild_canonical r "fn" ["work"; "app"]
             ["work"; "lib"; "util.rs"] eq_refl
             ltac:(repeat constructor) ltac:(repeat constructor)).
  - exact (ShouldRebuild_canonical r "fn" ["work"; "app"]
             ["work"; "app"; "..x"; "y.rs"] eq_refl
             ltac:(repeat constructor) ltac:(repeat constructor)).
  - exact (ShouldRebuild_canonical
             {| directories := {[ "fn" := "/work/app.rs" ]} |} "fn"
             ["work"; "app.rs"] ["work"; "app.rs"]
             eq_refl ltac:(repeat constructor) ltac:(repeat constructor)).
Defined.

Lemma dirPrefix_noSep e : hasSep e = false -> filepath.dirPrefix e = "".
Proof.
  induction e as [|c r IH]; intros H; [reflexivity|].
  cbn in H. apply orb_false_iff in H as [Hc Hr].
  cbn [filepath.dirPrefix]. now rewrite IH, Hc.
Qed.

Lemma dirPrefix_app_sep p e :
  hasSep e = false ->
  filepath.dirPrefix (p +:+ String "/"%char e) = p +:+ "/".
Proof.
  intros H. induction p as [|c r IH].
  - change ("" +:+ ?x) with x. cbn [filepath.dirPrefix].
    now rewrite dirPrefix_noSep.
  - change (String c r +:+ ?x) with (String c (r +:+ x)).
    cbn [filepath.dirPrefix]. rewrite IH. now destruct r.
Qed.

Lemma concat_snoc (rs : list string) e :
  rs <> [] ->
  String.concat "/" (rs ++ [e]) = String.concat "/" rs +:+ String "/"%char e.
Proof.
  induction rs as [|r [|r' l] IH]; intros H; [congruence|reflexivity|].
  change ((r :: r' :: l) ++ [e]) with (r :: r' :: (l ++ [e])).
  rewrite (concat_cons2 r r' (l ++ [e])).
  change (r' :: l ++ [e]) with ((r' :: l) ++ [e]).
  rewrite IH by congruence. rewrite (concat_cons2 r r' l).
  now rewrite strapp_assoc.
Qed.

(** [Dir] of a file in a canonical directory is that directory. *)
Lemma Dir_absPath (rs : list string) e :
  Forall (fun e => isNormal e = true) rs ->
  hasSep e = false ->
  filepath.Dir (absPath (rs ++ [e])) = absPath rs.
Proof.
  intros Hr He. unfold filepath.Dir.
  destruct rs as [|r l].
  - change (absPath ([] ++ [e])) with ("" +:+ String "/"%char e).
    now rewrite dirPrefix_app_sep.
  - unfold absPath at 1. rewrite concat_snoc by congruence.
    change ("/" +:+ ?a +:+ ?b) with (("/" +:+ a) +:+ b).
    rewrite dirPrefix_app_sep by assumption.
    change (("/" +:+ ?a) +:+ "/") with ("/" +:+ (a +:+ String "/"%char "")).
    rewrite <- concat_snoc by congruence.
    apply Clean_rooted_elems; [assumption | now right | left; congruence].
Qed.

(** ** [Build] and [ShouldRebuild] together *)

(** X2: after a successful [Build] whose manifest is
    [/r1/.../rn/Cargo.toml], the table holds [/r1/.../rn] for the function,
    whatever stood there before, and [ShouldRebuild] then answers true for
    the function exactly on the [.rs] files below that directory whose next
    element does not start with two dots. *)
Theorem Build_then_ShouldRebuild X r input w (rs : list string) fs' output :
  fs_FindUp X (files w) (Handler input) "Cargo.toml"
    = (absPath (rs ++ ["Cargo.toml"]), None) ->
  Forall (fun e => isNormal e = true) rs ->
  cmd_CombinedOutput X (buildCmd X input w (absPath (rs ++ ["Cargo.toml"])))
                     (files w) = (fs', output, None) ->
  let r' := (Build X r input w).1.2 in
  directories r' !! FunctionID input = Some (absPath rs) /\
  forall fs : list string,
    Forall (fun e => isNormal e = true) fs ->
    ShouldRebuild r' (FunctionID input) (absPath fs)
    = strings.HasSuffix (absPath fs) ".rs"
      && match dropPrefix rs fs with
         | Some [] => true
         | Some (next :: _) => negb (strings.HasPrefix next "..")
         | None => false
         end.
Proof.
  intros Hfind Hr Hrun r'.
  assert (Hdir : directories r' !! FunctionID input = Some (absPath rs)).
  { subst r'. rewrite (Build_found X r input w _ Hfind). cbv zeta.
    rewrite Hrun. cbn [fst snd directories].
    rewrite lookup_insert_eq. f_equal.
    unfold os.Abs, rootOf. rewrite Dir_absPath by (try assumption; reflexivity).
    unfold filepath.IsAbs, absPath at 1.
    change ("/" +:+ ?x) with (String "/"%char x). rewrite HasPrefix_sep.
    cbn [filepath.isSep Ascii.eqb Bool.eqb fst].
    now apply Clean_absPath. }
  split; [exact Hdir|].
  intros fs Hf. unfold ShouldRebuild. rewrite Hdir.
  destruct (strings.HasSuffix (absPath fs) ".rs"); [|reflexivity].
  cbn [negb andb]. now apply Rel_inside.
Qed.

Lemma Build_then_ShouldRebuild_witness :
  let r' := (Build demo.X New demo.input (demo.world demo.tree)).1.2 in
  directories r' !! "fn" = Some "/p" /\
  ShouldRebuild r' "fn" "/p/src/main.rs" = true /\
  ShouldRebuild r' "fn" "/q/src/main.rs" = false.
Proof.
  destruct (Build_then_ShouldRebuild demo.X New demo.input (demo.world demo.tree)
              ["p"] (<["/p/out/lambda/main/bootstrap" := File "ELF"]> demo.tree)
              "Finished" ltac:(vm_compute; reflexivity)
              ltac:(repeat constructor) ltac:(vm_compute; reflexivity))
    as [Hd Hs].
  refine (conj Hd (conj _ _)).
  - exact (Hs ["p"; "src"; "main.rs"] ltac:(repeat constructor)).
  - exact (Hs ["q"; "src"; "main.rs"] ltac:(repeat constructor)).
Defined.

(** X3: whatever a [Build] does, it leaves the entries of the other
    functions alone, so [ShouldRebuild] answers for them as before; and a
    [Build] that does not end in the successful result leaves the whole
    table as it was. *)
Theorem Build_frame X r input w :
  let '(out, err, r', w') := Build X r input w in
  (forall functionID,
     functionID <> FunctionID input ->
     directories r' !! functionID = directories r !! functionID /\
     forall file, ShouldRebuild r' functionID file
                  = ShouldRebuild r functionID file) /\
  (out <> Some (successfulBuild (Out_ input)) -> r' = r).
Proof.
  destruct (fs_FindUp X (files w) (Handler input) "Cargo.toml")
    as [cargoTomlFile [err|]] eqn:Hfind.
  - rewrite (Build_not_found X r input w _ _ Hfind). now split.
  - rewrite (Build_found X r input w _ Hfind). cbv zeta.
    destruct (cmd_CombinedOutput X _ (files w)) as [[fs' output] [e|]].
    + now split.
    + split; [|congruence].
      intros functionID Hne.
      assert (E : forall d : string,
                    <[FunctionID input := d]> (directories r) !! functionID
                    = directories r !! functionID)
        by (intros d; rewrite lookup_insert_ne by congruence; reflexivity).
      split; [apply E|]. intros file. unfold ShouldRebuild.
      cbn [directories]. now rewrite E.
Qed.

Lemma Build_frame_witness :
  let r := {| directories := {[ "other" := "/q" ]} |} in
  let r' := (Build demo.X r demo.input (demo.world demo.tree)).1.2 in
  directories r' !! "other" = directories r !! "other" /\
  forall file, ShouldRebuild r' "other" file = ShouldRebuild r "other" file.
Proof.
  intros r r'.
  pose proof (Build_frame demo.X r demo.input (demo.world demo.tree)) as H.
  subst r'.
  destruct (Build demo.X r demo.input (demo.world demo.tree))
    as [[[out err] r1] w1].
  exact (proj1 H "other" ltac:(discriminate)).
Defined.

(** ** [copyFile]: what it guarantees and what it leaves alone *)

Lemma mkdirAll_new_dirs n : forall path fs e fs1,
  os.mkdirAll n path fs = (e, fs1) ->
  forall p x, fs1 !! p = Some x -> fs !! p = Some x \/ x = Directory.
Proof.
  assert (Hins : forall (m : gmap string node) path p x,
            <[path := Directory]> m !! p = Some x ->
            m !! p = Some x \/ x = Directory).
  { intros m path p x. destruct (decide (path = p)) as [->|Hne].
    - rewrite lookup_insert_eq. intros [= <-]. now right.
    - rewrite lookup_insert_ne by exact Hne. now left. }
  induction n as [|n IH]; intros path fs e fs1; cbn [os.mkdirAll];
    destruct (os.Stat fs path) as [[c|]|];
    try (intros [= <- <-]; auto; fail).
  - intros [= <- <-]. apply Hins.
  - destruct (0 <? String.length (os.mkdirParent path)).
    + destruct (os.mkdirAll n _ fs) as [[e'|] fs'] eqn:Hrec.
      * intros [= <- <-]. eapply IH; exact Hrec.
      * intros [= <- <-] p x Hp. apply Hins in Hp as [Hp | ->]; [|now right].
        eapply IH; eassumption.
    + intros [= <- <-]. apply Hins.
Qed.

Lemma Stat_File_lookup fs p c : os.Stat fs p = Some (File c) <-> fs !! p = Some (File c) /\ p <> "/" /\ p <> ".".
Proof.
  unfold os.Stat.
  destruct (String.eqb p "/") eqn:E1; [apply String.eqb_eq in E1|apply String.eqb_neq in E1];
    destruct (String.eqb p ".") eqn:E2; [apply String.eqb_eq in E2| apply String.eqb_neq in E2 | apply String.eqb_eq in E2 | apply String.eqb_neq in E2];
    cbn [orb]; split; try discriminate; try tauto; intros (_ & ? & ?); congruence.
Qed.

(** X4: whether it succeeds or fails, [copyFile] removes and changes
    nothing that exists under a name other than the destination, brings no
    regular file into being under such a name (only directories on the way
    to the destination), and leaves the working directory and the
    environment alone. *)
Theorem copyFile_frame src dst w :
  let w2 := (copyFile src dst w).2 in
  (forall p x, p <> dst -> os.Stat (files w) p = Some x ->
               os.Stat (files w2) p = Some x) /\
  (forall p c, p <> dst -> os.Stat (files w2) p = Some (File c) ->
               os.Stat (files w) p = Some (File c)) /\
  cwd w2 = cwd w /\ environ w2 = environ w.
Proof.
  assert (Hnew : forall (m m' : gmap string node),
            (forall p x, m' !! p = Some x -> m !! p = Some x \/ x = Directory) ->
            forall p c, os.Stat m' p = Some (File c) -> os.Stat m p = Some (File c)).
  { intros m m' H p c Hp. apply Stat_File_lookup in Hp as (Hp & H1 & H2).
    apply Stat_File_lookup. destruct (H _ _ Hp) as [?|?]; [tauto | discriminate]. }
  unfold copyFile.
  destruct (os.Open src (files w)); [cbn; repeat split; auto|].
  destruct (os.MkdirAll _ (files w)) as [e fs1] eqn:Emk.
  pose proof (mkdirAll_keeps _ _ _ _ _ Emk) as Hkeep.
  pose proof (Hnew _ _ (mkdirAll_new_dirs _ _ _ _ _ Emk)) as Hfresh.
  destruct e as [e|]; [cbn; repeat split; auto|].
  unfold os.Create.
  destruct (os.Stat fs1 dst) as [[c0|]|];
    try (cbn; repeat split; auto; fail);
    (destruct (os.Stat fs1 (filepath.Dir dst)) as [[c1|]|];
     try (cbn; repeat split; auto; fail));
    (destruct (os.Stat (<[dst := File ""]> fs1) src) as [[c2|]|];
     cbn [snd files cwd environ emit setFiles];
     (repeat split; auto;
      [ intros p x Hp Hx; rewrite ?Stat_insert_ne by exact Hp; now apply Hkeep
      | intros p c Hp Hc; rewrite ?Stat_insert_ne in Hc by exact Hp;
        now apply Hfresh ])).
Qed.

Lemma copyFile_frame_witness :
  os.Stat (files (copyFile "/srv/app/bootstrap" "/srv/old/bootstrap"
                    sample.world).2) "/srv/app/bootstrap"
  = Some (File "ELF").
Proof.
  exact (proj1 (copyFile_frame "/srv/app/bootstrap" "/srv/old/bootstrap"
                  sample.world)
           "/srv/app/bootstrap" (File "ELF") ltac:(discriminate)
           ltac:(vm_compute; reflexivity)).
Defined.

(** X5: when [copyFile] returns nil, the destination is a regular file, its
    directory exists and the file has been synced; the destination holds
    what the source held, unless source and destination are one name, in
    which case the file has been emptied. *)
Theorem copyFile_nil src dst w :
  (copyFile src dst w).1 = None ->
  let w2 := (copyFile src dst w).2 in
  exists content,
    os.Stat (files w2) dst = Some (File content) /\
    (src <> dst -> os.Stat (files w) src = Some (File content)) /\
    (src = dst -> content = "") /\
    os.Stat (files w2) (filepath.Dir dst) = Some Directory /\
    events w2 = events w ++ [EvSync dst].
Proof.
  unfold copyFile, os.Open.
  destruct (os.Stat (files w) src) as [x|] eqn:Hsrc; [|discriminate].
  destruct (os.MkdirAll _ (files w)) as [[e|] fs1] eqn:Emk; [discriminate|].
  pose proof (mkdirAll_keeps _ _ _ _ _ Emk _ _ Hsrc) as Hkeep.
  unfold os.Create.
  destruct (os.Stat fs1 dst) as [[c0|]|] eqn:Hd; try discriminate;
    (destruct (os.Stat fs1 (filepath.Dir dst)) as [[c1|]|] eqn:Hp;
     try discriminate);
    (destruct (os.Stat (<[dst := File ""]> fs1) src) as [[content|]|] eqn:Hrd;
     try discriminate);
    intros _; cbn [snd files events emit setFiles]; exists content;
    (assert (Hnd : os.Stat fs1 dst <> Some Directory) by congruence);
    (assert (Hne : filepath.Dir dst <> dst) by (intros E; congruence));
    (repeat split;
     [ rewrite (Stat_lookup _ _ Hnd); apply lookup_insert_eq
     | intros Hsd; rewrite Stat_insert_ne in Hrd by exact Hsd; congruence
     | intros ->; rewrite (Stat_lookup _ _ Hnd), lookup_insert_eq in Hrd;
       congruence
     | rewrite !Stat_insert_ne by exact Hne; exact Hp ]).
Qed.

Lemma copyFile_nil_witness :
  let w := demo.world (<["/p/out/lambda/main/bootstrap" := File "ELF"]> demo.tree) in
  exists content,
    os.Stat (files (copyFile "/p/out/lambda/main/bootstrap" "/art/fn/bootstrap" w).2)
            "/art/fn/bootstrap" = Some (File content) /\
    ("/p/out/lambda/main/bootstrap" <> "/art/fn/bootstrap" ->
     os.Stat (files w) "/p/out/lambda/main/bootstrap" = Some (File content)).
Proof.
  intros w.
  destruct (copyFile_nil "/p/out/lambda/main/bootstrap" "/art/fn/bootstrap" w
              ltac:(vm_compute; reflexivity)) as (content & H1 & H2 & _).
  exists content. exact (conj H1 H2).
Defined.

(** X6: copying a regular file onto itself succeeds and leaves the file
    empty: the destination is truncated before the source is read. *)
Theorem copyFile_onto_itself name w content :
  os.Stat (files w) name = Some (File content) ->
  os.Stat (files w) (filepath.Dir name) = Some Directory ->
  (copyFile name name w).1 = None /\
  os.Stat (files (copyFile name name w).2) name = Some (File "").
Proof.
  intros Hsrc Hdir.
  assert (Hnd : os.Stat (files w) name <> Some Directory) by congruence.
  unfold copyFile, os.Open, os.MkdirAll. rewrite Hsrc.
  assert (Hmk : forall n, os.mkdirAll n (filepath.Dir name) (files w)
                          = (None, files w))
    by (intros n; destruct n; cbn [os.mkdirAll]; now rewrite Hdir).
  rewrite Hmk. unfold os.Create. rewrite Hsrc, Hdir.
  rewrite (Stat_lookup _ _ Hnd), lookup_insert_eq.
  cbn [fst snd files emit setFiles]. split; [reflexivity|].
  rewrite (Stat_lookup _ _ Hnd). apply lookup_insert_eq.
Qed.

Lemma copyFile_onto_itself_witness :
  (copyFile "/srv/app/bootstrap" "/srv/app/bootstrap" sample.world).1 = None /\
  os.Stat (files (copyFile "/srv/app/bootstrap" "/srv/app/bootstrap"
                           sample.world).2)
          "/srv/app/bootstrap" = Some (File "").
Proof.
  exact (copyFile_onto_itself "/srv/app/bootstrap" sample.world "ELF"
           ltac:(vm_compute; reflexivity) ltac:(vm_compute; reflexivity)).
Defined.

(** X7: how [copyFile] fails. With no source it returns an error and has
    touched nothing, not even the destination's directory. With a directory
    as source it returns an error after the destination has been created or
    truncated, so a file that was there is left empty. And without the nil
    result nothing has been synced. *)
Theorem copyFile_errors src dst w :
  let w2 := (copyFile src dst w).2 in
  (os.Stat (files w) src = None ->
   exists e, copyFile src dst w = (Some e, w)) /\
  (os.Stat (files w) src = Some Directory ->
   src <> dst ->
   (os.MkdirAll (filepath.Dir dst) (files w)).1 = None ->
   os.Stat (files w) dst <> Some Directory ->
   (exists e, (copyFile src dst w).1 = Some e) /\
   os.Stat (files w2) dst = Some (File "")) /\
  ((copyFile src dst w).1 <> None -> events w2 = events w).
Proof.
  cbv zeta. split; [|split].
  - intros H. unfold copyFile, os.Open. rewrite H. eauto.
  - intros Hsrc Hne Hmk Hdst. unfold copyFile, os.Open. rewrite Hsrc.
    destruct (os.MkdirAll (filepath.Dir dst) (files w)) as [e fs1] eqn:Emk.
    cbn in Hmk. subst e.
    pose proof (mkdirAll_ok _ _ _ _ Emk) as Hdir.
    pose proof (mkdirAll_keeps _ _ _ _ _ Emk _ _ Hsrc) as Hkeep.
    pose proof (MkdirAll_Dir_keeps_name _ _ _ _ Emk) as Hsame.
    assert (Hd1 : os.Stat fs1 dst <> Some Directory) by congruence.
    unfold os.Create. rewrite Hdir.
    destruct (os.Stat fs1 dst) as [[c|]|] eqn:Ed; [| congruence |];
      rewrite (Stat_insert_ne _ src dst) by exact Hne;
      rewrite Hkeep; cbn [fst snd files setFiles];
      (split; [eauto | rewrite (Stat_lookup _ _ Hdst); apply lookup_insert_eq]).
  - intros H. unfold copyFile in *.
    destruct (os.Open src (files w)); [reflexivity|].
    destruct (os.MkdirAll _ _) as [[e|] fs1]; [reflexivity|].
    destruct (os.Create dst fs1) as [[e|] fs2]; [reflexivity|].
    destruct (os.Stat fs2 src) as [[c|]|]; [now cbn in H | reflexivity | reflexivity].
Qed.

Lemma copyFile_errors_witness :
  (exists e, (copyFile "/srv/app/cache" "/srv/old/bootstrap" sample.world).1
             = Some e) /\
  os.Stat (files sample.world) "/srv/old/bootstrap" = Some (File "previous") /\
  os.Stat (files (copyFile "/srv/app/cache" "/srv/old/bootstrap"
                           sample.world).2)
          "/srv/old/bootstrap" = Some (File "").
Proof.
  destruct (proj1 (proj2 (copyFile_errors "/srv/app/cache" "/srv/old/bootstrap"
                            sample.world))
              ltac:(vm_compute; reflexivity) ltac:(congruence)
              ltac:(vm_compute; reflexivity) ltac:(vm_compute; congruence))
    as [He Hd].
  refine (conj He (conj _ Hd)). vm_compute. reflexivity.
Defined.

(** ** [FindClosestCargoConfig]: inheritance and locality *)

Lemma walk_fixed n p : filepath.Dir p = p -> walk (S n) p = [p].
Proof. intros E. cbn [walk]. now rewrite E, String.eqb_refl. Qed.

Lemma ancestors_step dir :
  filepath.Dir dir <> dir ->
  ancestors dir = dir :: ancestors (filepath.Dir dir).
Proof.
  intros Hne. unfold ancestors at 1.
  replace (String.length dir + 2) with (S (String.length dir + 1)) by lia.
  cbn [walk]. apply String.eqb_neq in Hne. rewrite Hne. f_equal.
  destruct (Dir_cases dir) as [H | [H | H]].
  - rewrite H. replace (String.length dir + 1) with (S (String.length dir)) by lia.
    reflexivity.
  - rewrite H. replace (String.length dir + 1) with (S (String.length dir)) by lia.
    reflexivity.
  - apply walk_fuel_enough. lia.
Qed.

(** X8: a directory whose [.cargo] offers a file answers with it; any other
    directory gets the answer of its parent, and at the top, nothing. *)
Theorem FindClosestCargoConfig_inherits fs dir :
  (forall f, cargoConfigIn fs dir = Some f ->
             FindClosestCargoConfig fs dir = Some f) /\
  (cargoConfigIn fs dir = None ->
   FindClosestCargoConfig fs dir
   = if String.eqb (filepath.Dir dir) dir then None
     else FindClosestCargoConfig fs (filepath.Dir dir)).
Proof.
  unfold FindClosestCargoConfig. rewrite !findClosestLoop_walk.
  fold (ancestors dir). fold (ancestors (filepath.Dir dir)).
  destruct (String.eqb (filepath.Dir dir) dir) eqn:E.
  - apply String.eqb_eq in E. unfold ancestors.
    replace (String.length dir + 2) with (S (String.length dir + 1)) by lia.
    rewrite (walk_fixed _ _ E). cbn [firstConfig].
    split; [now intros f -> | now intros ->].
  - apply String.eqb_neq in E. rewrite (ancestors_step dir E).
    cbn [firstConfig]. split; [now intros f -> | now intros ->].
Qed.

Lemma FindClosestCargoConfig_inherits_witness :
  let fs : gmap string node :=
    {[ "/a/.cargo" := Directory; "/a/.cargo/config" := File "" ]} in
  FindClosestCargoConfig fs "/a/b/c" = FindClosestCargoConfig fs "/a/b" /\
  FindClosestCargoConfig fs "/a" = Some "/a/.cargo/config".
Proof.
  intros fs. split.
  - exact (proj2 (FindClosestCargoConfig_inherits fs "/a/b/c")
             ltac:(vm_compute; reflexivity)).
  - exact (proj1 (FindClosestCargoConfig_inherits fs "/a") "/a/.cargo/config"
             ltac:(vm_compute; reflexivity)).
Defined.

(** X9: the search asks only whether three names exist in each directory
    on the way up: [.cargo], and [config.toml] and [config] inside it. Two
    file systems that agree on those give the same answer, whatever else
    they hold and whatever the files contain. *)
Theorem FindClosestCargoConfig_local fs fs' dir :
  Forall (fun d =>
            let cargoDir := filepath.Join [d; ".cargo"] in
            os.statOk fs cargoDir = os.statOk fs' cargoDir /\
            os.statOk fs (filepath.Join [cargoDir; "config.toml"])
            = os.statOk fs' (filepath.Join [cargoDir; "config.toml"]) /\
            os.statOk fs (filepath.Join [cargoDir; "config"])
            = os.statOk fs' (filepath.Join [cargoDir; "config"]))
         (ancestors dir) ->
  FindClosestCargoConfig fs dir = FindClosestCargoConfig fs' dir.
Proof.
  unfold FindClosestCargoConfig. rewrite !findClosestLoop_walk.
  fold (ancestors dir). induction (ancestors dir) as [|d l IH]; intros H;
    [reflexivity|].
  inversion H as [|? ? (H1 & H2 & H3) Hl]; subst. cbn [firstConfig].
  assert (E : cargoConfigIn fs d = cargoConfigIn fs' d)
    by (unfold cargoConfigIn; cbv zeta; now rewrite H1, H2, H3).
  rewrite E, (IH Hl). reflexivity.
Qed.

Lemma FindClosestCargoConfig_local_witness :
  FindClosestCargoConfig demo.tree "/p/src"
  = FindClosestCargoConfig
      (<["/p/out/lambda/main/bootstrap" := File "ELF"]> demo.tree) "/p/src".
Proof.
  apply FindClosestCargoConfig_local. vm_compute. repeat constructor.
Defined.

(** ** The artifact name *)

Lemma hasSep_app a b : hasSep (a +:+ b) = hasSep a || hasSep b.
Proof.
  induction a as [|c r IH]; [reflexivity|].
  change (String c r +:+ b) with (String c (r +:+ b)). cbn [hasSep].
  now rewrite IH, orb_assoc.
Qed.

Lemma extOf_noDot e : hasDot e = false -> filepath.extOf e = "".
Proof.
  induction e as [|c r IH]; intros H; [reflexivity|].
  cbn in H. apply orb_false_iff in H as [Hc Hr].
  cbn [filepath.extOf]. now rewrite IH, Hc.
Qed.

Lemma extOf_app_ext stem ext :
  hasDot ext = false ->
  filepath.extOf (stem +:+ String "."%char ext) = String "."%char ext.
Proof.
  intros H. induction stem as [|c r IH].
  - change ("" +:+ ?x) with x. cbn [filepath.extOf].
    now rewrite extOf_noDot.
  - change (String c r +:+ ?x) with (String c (r +:+ x)).
    cbn [filepath.extOf]. now rewrite IH.
Qed.

Lemma substring_prefix pre suf :
  String.substring 0 (String.length pre) (pre +:+ suf) = pre.
Proof.
  induction pre as [|c r IH]; [now destruct suf|].
  change (String c r +:+ suf) with (String c (r +:+ suf)). cbn. now rewrite IH.
Qed.

Lemma TrimSuffix_app stem suf : strings.TrimSuffix (stem +:+ suf) suf = stem.
Proof.
  unfold strings.TrimSuffix.
  rewrite (proj2 (HasSuffix_iff (stem +:+ suf) suf)) by eauto.
  rewrite strlen_app.
  replace (String.length stem + String.length suf - String.length suf)
    with (String.length stem) by lia.
  apply substring_prefix.
Qed.

Lemma strapp_nil_r s : s +:+ "" = s.
Proof.
  induction s as [|c r IH]; [reflexivity|].
  change (String c r +:+ "") with (String c (r +:+ "")). now rewrite IH.
Qed.

Lemma last_split_dir pre :
  pre = "" \/ (exists d, pre = d +:+ "/") ->
  List.last (filepath.split pre) "" = "".
Proof.
  intros [-> | [d ->]]; [reflexivity|].
  rewrite split_snoc_sep. apply last_last.
Qed.

(** X10: the artifact name depends on the handler's file name only, not on
    the directories in front of it. Of a file name [stem.ext], with no dot
    in [ext], it is [stem], so [main.test.rs] gives [main.test] and the
    hidden file [.rs] gives the empty name; a file name without a dot is
    the name itself. *)
Theorem artifactName_of_file pre stem ext :
  pre = "" \/ (exists d, pre = d +:+ "/") ->
  hasSep stem = false ->
  hasSep ext = false -> hasDot ext = false ->
  artifactName (pre +:+ stem +:+ "." +:+ ext) = stem /\
  (stem <> "" -> hasDot stem = false -> artifactName (pre +:+ stem) = stem).
Proof.
  intros Hpre Hs He Hd.
  assert (Hlast : forall name, hasSep name = false ->
            List.last (filepath.split (pre +:+ name)) "" = name).
  { intros name Hn. rewrite last_split_app_noSep by exact Hn.
    now rewrite last_split_dir. }
  assert (Hname : forall name, hasSep name = false -> name <> "" ->
            artifactName (pre +:+ name)
            = strings.TrimSuffix name (filepath.extOf name)).
  { intros name Hn Hne. unfold artifactName.
    assert (Hf : namesFile (pre +:+ name))
      by (unfold namesFile; now rewrite Hlast).
    rewrite (proj1 (Base_Ext_of_file _ Hf)). unfold filepath.Ext.
    now rewrite Hlast. }
  split.
  - rewrite Hname.
    + change ("." +:+ ext) with (String "."%char ext).
      rewrite extOf_app_ext by exact Hd. apply TrimSuffix_app.
    + rewrite hasSep_app, Hs. cbn. exact He.
    + destruct stem; discriminate.
  - intros Hne Hnd. rewrite Hname by assumption.
    rewrite extOf_noDot by exact Hnd.
    rewrite <- (strapp_nil_r stem) at 1. apply TrimSuffix_app.
Qed.

Lemma artifactName_of_file_witness :
  artifactName "/p/src/main.test.rs" = "main.test" /\
  artifactName "src/bin/.rs" = "" /\
  artifactName "handlers/main" = "main".
Proof.
  refine (conj _ (conj _ _)).
  - exact (proj1 (artifactName_of_file "/p/src/" "main.test" "rs"
                    (or_intror (ex_intro _ "/p/src" eq_refl))
                    eq_refl eq_refl eq_refl)).
  - exact (proj1 (artifactName_of_file "src/bin/" "" "rs"
                    (or_intror (ex_intro _ "src/bin" eq_refl))
                    eq_refl eq_refl eq_refl)).
  - exact (proj2 (artifactName_of_file "handlers/" "main" "rs"
                    (or_intror (ex_intro _ "handlers" eq_refl))
                    eq_refl eq_refl eq_refl)
             ltac:(discriminate) eq_refl).
Defined.

(** ** [Build] and [Run] together *)



(** ** [Logs] with one silent stream *)

Lemma merge_nil_r a b m : merge a b m -> b = [] -> m = a.
Proof. induction 1; intros E; [reflexivity | f_equal; auto | discriminate]. Qed.

Lemma merge_nil_l a b m : merge a b m -> a = [] -> m = b.
Proof. induction 1; intros E; [reflexivity | discriminate | f_equal; auto]. Qed.

(** X12: when the child writes on one stream only, the merged stream is
    that stream: at every moment of a run what has come out is a leading
    part of it, and once the writer is closed, all of it, byte for byte. *)
Theorem Logs_one_stream bytes s :
  (logsRun (Logs bytes []) s \/ logsRun (Logs [] bytes) s) ->
  (exists rest, bytes = merged s ++ rest) /\
  (writerClosed s = true -> merged s = bytes).
Proof.
  intros [Hrun | Hrun]; pose proof (logsInv_run _ _ _ Hrun) as Hinv.
  - split.
    + destruct Hinv as (po & pe & Ho & He & Hm & _).
      assert (pe = []) as -> by (destruct pe; [reflexivity | discriminate]).
      apply merge_nil_r in Hm; [|reflexivity]. subst po. eauto.
    + intros Hc. destruct (logs_closed _ _ _ Hinv Hc) as (_ & _ & _ & _ & Hm & _).
      now apply merge_nil_r in Hm.
  - split.
    + destruct Hinv as (po & pe & Ho & He & Hm & _).
      assert (po = []) as -> by (destruct po; [reflexivity | discriminate]).
      apply merge_nil_l in Hm; [|reflexivity]. subst pe. eauto.
    + intros Hc. destruct (logs_closed _ _ _ Hinv Hc) as (_ & _ & _ & _ & Hm & _).
      now apply merge_nil_l in Hm.
Qed.

Lemma sample_run : logsRun (Logs [Byte.x6f; Byte.x6b] []) sample.quietDrained.
Proof.
  eapply logsRun_cons;
    [apply (step_stdout _ _ _ _ _ _ _ _ (copy_read [Byte.x6f; Byte.x6b] [] ltac:(congruence)))|].
  eapply logsRun_cons; [apply (step_stderr _ _ _ _ _ _ _ _ copy_eof)|].
  eapply logsRun_cons; [apply (step_stdout _ _ _ _ _ _ _ _ (copy_write _ _))|].
  eapply logsRun_cons; [apply (step_stdout _ _ _ _ _ _ _ _ copy_eof)|].
  eapply logsRun_cons; [apply step_close|].
  apply run_refl.
Defined.

Lemma Logs_one_stream_witness :
  merged sample.quietDrained = [Byte.x6f; Byte.x6b].
Proof.
  exact (proj2 (Logs_one_stream [Byte.x6f; Byte.x6b] sample.quietDrained
                  (or_introl sample_run)) eq_refl).
Defined.

(** ** A root recorded without a working directory *)

Lemma fold_cleanStep_elems rooted (l out : list string) :
  Forall (fun e => e <> "" /\ hasSep e = false) out ->
  Forall (fun e => hasSep e = false) l ->
  Forall (fun e => e <> "" /\ hasSep e = false)
         (fold_left (filepath.cleanStep rooted) l out).
Proof.
  revert out. induction l as [|e l IH]; intros out Ho Hl; [exact Ho|].
  inversion Hl as [|? ? He Hl']; subst. cbn [fold_left]. apply IH; [|exact Hl'].
  unfold filepath.cleanStep.
  destruct (String.eqb e "") eqn:E0; [exact Ho|].
  destruct (String.eqb e "."); [exact Ho|].
  apply String.eqb_neq in E0.
  destruct (String.eqb e "..").
  - destruct out as [|top rest].
    + destruct rooted; [constructor | now repeat constructor].
    + destruct (String.eqb top "..");
        [destruct rooted; [exact Ho | now constructor]|].
      now inversion Ho.
  - now constructor.
Qed.

Lemma HasPrefix_concat_sep e (l : list string) :
  e <> "" -> hasSep e = false ->
  strings.HasPrefix (String.concat "/" (e :: l)) "/" = false.
Proof.
  intros Hne Hs. destruct e as [|c r]; [congruence|].
  cbn in Hs. apply orb_false_iff in Hs as [Hc _].
  destruct l as [|e' l'].
  - cbn [String.concat]. now rewrite HasPrefix_sep.
  - rewrite concat_cons2.
    change (String c r +:+ ?x) with (String c (r +:+ x)).
    now rewrite HasPrefix_sep.
Qed.

(** [Clean] keeps a path rooted or not as it found it. *)
Lemma Clean_IsAbs path :
  path <> "" ->
  strings.HasPrefix (filepath.Clean path) "/" = strings.HasPrefix path "/".
Proof.
  intros Hne. unfold filepath.Clean.
  apply String.eqb_neq in Hne. rewrite Hne.
  destruct (strings.HasPrefix path "/") eqn:Hr.
  - change ("/" +:+ ?x) with (String "/"%char x). now rewrite HasPrefix_sep.
  - pose proof (fold_cleanStep_elems false (filepath.split path) []
                  ltac:(constructor) (split_hasSep path)) as H.
    apply Forall_rev in H.
    destruct (rev _) as [|e l]; [reflexivity|].
    inversion H as [|? ? [H1 H2] _]; subst.
    now apply HasPrefix_concat_sep.
Qed.

Lemma HasSuffix_nonempty file suffix :
  suffix <> "" -> strings.HasSuffix file suffix = true -> file <> "".
Proof.
  intros Hs H ->. apply HasSuffix_iff in H as [pre E].
  destruct pre; [|discriminate].
  change ("" +:+ suffix) with suffix in E. congruence.
Qed.

(** With the empty string recorded as root, [ShouldRebuild] accepts a
    relative source file unless its cleaned path starts with two dots, and
    refuses every absolute one. *)
Lemma ShouldRebuild_empty_root r functionID file :
  directories r !! functionID = Some "" ->
  strings.HasSuffix file ".rs" = true ->
  ShouldRebuild r functionID file
  = negb (filepath.IsAbs file)
    && negb (strings.HasPrefix (filepath.Clean file) "..").
Proof.
  intros Hdir Hsuf. unfold ShouldRebuild. rewrite Hsuf, Hdir. cbn [negb].
  assert (Hne : file <> "")
    by (apply (HasSuffix_nonempty file ".rs"); [discriminate | exact Hsuf]).
  pose proof (Clean_IsAbs file Hne) as Ha.
  unfold filepath.Rel, filepath.IsAbs.
  change (filepath.Clean "") with ".".
  destruct (String.eqb (filepath.Clean file) ".") eqn:E.
  - apply String.eqb_eq in E. rewrite E in *.
    now rewrite <- Ha.
  - cbn [String.eqb Ascii.eqb Bool.eqb].
    change (strings.HasPrefix "" "/") with false. rewrite Ha.
    destruct (strings.HasPrefix file "/"); [reflexivity|].
    cbn [eqb negb String.length filepath.relLoop String.eqb orb andb].
    reflexivity.
Qed.

(** X13: the error of [filepath.Abs] is dropped. When the project root is
    a relative path and the working directory cannot be determined, a
    successful [Build] records the empty string for the function; from then
    on [ShouldRebuild] accepts for it every relative [.rs] path whose
    cleaned form does not start with two dots, wherever it lies, and
    refuses every absolute path, the project's own files included. *)
Theorem Build_without_cwd X r input w cargoTomlFile fs' output :
  fs_FindUp X (files w) (Handler input) "Cargo.toml" = (cargoTomlFile, None) ->
  cmd_CombinedOutput X (buildCmd X input w cargoTomlFile) (files w)
    = (fs', output, None) ->
  filepath.IsAbs (filepath.Dir cargoTomlFile) = false ->
  cwd w = None ->
  let r' := (Build X r input w).1.2 in
  directories r' !! FunctionID input = Some "" /\
  forall file,
    strings.HasSuffix file ".rs" = true ->
    ShouldRebuild r' (FunctionID input) file
    = negb (filepath.IsAbs file)
      && negb (strings.HasPrefix (filepath.Clean file) "..").
Proof.
  intros Hfind Hrun Hrel Hcwd r'.
  assert (Hdir : directories r' !! FunctionID input = Some "").
  { subst r'. rewrite (Build_found X r input w _ Hfind). cbv zeta.
    rewrite Hrun. cbn [fst snd directories].
    rewrite lookup_insert_eq. f_equal.
    unfold os.Abs, rootOf. rewrite Hrel, copyFile_cwd.
    cbn [cwd emit setFiles]. now rewrite Hcwd. }
  split; [exact Hdir|].
  intros file Hs. now apply ShouldRebuild_empty_root.
Qed.

Lemma Build_without_cwd_witness :
  let r' := (Build demo.X New sample.lostInput sample.lostWorld).1.2 in
  directories r' !! "fn" = Some "" /\
  ShouldRebuild r' "fn" "elsewhere/lib.rs" = true /\
  ShouldRebuild r' "fn" "/abs/src/main.rs" = false.
Proof.
  destruct (Build_without_cwd demo.X New sample.lostInput sample.lostWorld
              "Cargo.toml" sample.lostBuilt "Finished"
              ltac:(vm_compute; reflexivity) ltac:(vm_compute; reflexivity)
              ltac:(vm_compute; reflexivity) ltac:(vm_compute; reflexivity))
    as [Hd Hs].
  refine (conj Hd (conj _ _)).
  - exact (Hs "elsewhere/lib.rs" ltac:(vm_compute; reflexivity)).
  - exact (Hs "/abs/src/main.rs" ltac:(vm_compute; reflexivity)).
Defined.

(** ** When [ShouldRebuild] refuses *)

Lemma Rel_mixed root file :
  file <> "" ->
  filepath.IsAbs root <> filepath.IsAbs file ->
  exists e, filepath.Rel root file = ("", Some e).
Proof.
  intros Hf Hmix. unfold filepath.IsAbs in Hmix.
  pose proof (Clean_IsAbs file Hf) as Ht.
  assert (Hb : strings.HasPrefix
                 (if String.eqb (filepath.Clean root) "." then ""
                  else filepath.Clean root) "/"
               = strings.HasPrefix root "/").
  { destruct root as [|c r]; [reflexivity|].
    pose proof (Clean_IsAbs (String c r) ltac:(congruence)) as Hr.
    destruct (String.eqb (filepath.Clean (String c r)) ".") eqn:E; [|exact Hr].
    apply String.eqb_eq in E. rewrite E in Hr. now rewrite <- Hr. }
  unfold filepath.Rel.
  destruct (String.eqb (filepath.Clean file) (filepath.Clean root)) eqn:E.
  - exfalso. apply String.eqb_eq in E. rewrite E in Ht.
    destruct (String.eqb (filepath.Clean root) ".") eqn:E1.
    + apply String.eqb_eq in E1. rewrite E1 in Ht. cbn in Hb.
      rewrite <- Hb, <- Ht in Hmix. now apply Hmix.
    + rewrite Hb in Ht. rewrite Ht in Hmix. now apply Hmix.
  - rewrite Hb, Ht.
    destruct (strings.HasPrefix root "/"), (strings.HasPrefix file "/");
      try (exfalso; now apply Hmix); cbn [eqb negb]; eauto.
Qed.

(** X14: [ShouldRebuild] answers false for a file whose extension is not
    [.rs] (the suffix test of the code is exactly that test), for a
    function with no recorded root, whenever [Rel] fails, and in particular
    whenever one of root and file is an absolute path and the other is
    not. *)
Theorem ShouldRebuild_refusals r functionID file :
  (strings.HasSuffix file ".rs" = true <-> filepath.Ext file = ".rs") /\
  (filepath.Ext file <> ".rs" -> ShouldRebuild r functionID file = false) /\
  (directories r !! functionID = None ->
   ShouldRebuild r functionID file = false) /\
  (forall root e,
     directories r !! functionID = Some root ->
     (filepath.Rel root file).2 = Some e ->
     ShouldRebuild r functionID file = false) /\
  (forall root,
     directories r !! functionID = Some root ->
     filepath.IsAbs root <> filepath.IsAbs file ->
     ShouldRebuild r functionID file = false).
Proof.
  split; [apply HasSuffix_rs_iff_Ext|].
  split; [|split; [|split]].
  - intros H. unfold ShouldRebuild.
    destruct (strings.HasSuffix file ".rs") eqn:E; [|reflexivity].
    apply HasSuffix_rs_iff_Ext in E. contradiction.
  - intros H. unfold ShouldRebuild. rewrite H.
    now destruct (strings.HasSuffix file ".rs").
  - intros root e Hd He. unfold ShouldRebuild. rewrite Hd.
    destruct (strings.HasSuffix file ".rs"); [|reflexivity]. cbn [negb].
    destruct (filepath.Rel root file) as [rel [e'|]]; [reflexivity|discriminate].
  - intros root Hd Hmix. unfold ShouldRebuild. rewrite Hd.
    destruct (strings.HasSuffix file ".rs") eqn:Hs; [|reflexivity]. cbn [negb].
    assert (Hne : file <> "")
      by (apply (HasSuffix_nonempty file ".rs"); [discriminate | exact Hs]).
    destruct (Rel_mixed root file Hne Hmix) as [e ->]. reflexivity.
Qed.

Lemma ShouldRebuild_refusals_witness :
  let r := {| directories := {[ "fn" := "/work/app" ]} |} in
  ShouldRebuild r "fn" "/work/app/src/main.rs.bak" = false /\
  ShouldRebuild r "gn" "/work/app/src/main.rs" = false /\
  ShouldRebuild r "fn" "src/main.rs" = false.
Proof.
  intros r. refine (conj _ (conj _ _)).
  - exact (proj1 (proj2 (ShouldRebuild_refusals r "fn" "/work/app/src/main.rs.bak"))
             ltac:(vm_compute; discriminate)).
  - exact (proj1 (proj2 (proj2 (ShouldRebuild_refusals r "gn" "/work/app/src/main.rs")))
             ltac:(vm_compute; reflexivity)).
  - exact (proj2 (proj2 (proj2 (proj2 (ShouldRebuild_refusals r "fn" "src/main.rs"))))
             "/work/app" ltac:(vm_compute; reflexivity)
             ltac:(vm_compute; discriminate)).
Defined.
